(** * page-to-mdx: the HTML-to-MDX converter of [src/utils/htmlToMdx.ts]

    A shallow embedding of the converter and the properties its
    specification states about it.

    - JavaScript strings are sequences of UTF-16 code units ([jsstring]).
    - The parsed document ([DOMParser.parseFromString]) is the input: a
      finite tree of text, element and other nodes.
    - Code that can throw returns a [completion]: [Ok v] or [Throw e].
    - The one reading of the clock, [new Date().toISOString()], is an
      argument of [htmlToMdx]. *)

From Stdlib Require Import Ascii String DecimalString.
From Stdlib Require Import List NArith ZArith Bool Lia.
Import ListNotations.

Local Open Scope string_scope.
Local Open Scope N_scope.
Local Open Scope list_scope.

(** ** JavaScript strings *)

Definition char := N.
Definition jsstring := list char.

(** An ASCII literal as a JavaScript string. *)
Definition lit (s : string) : jsstring :=
  map N_of_ascii (list_ascii_of_string s).

Definition LF : char := 10.
Definition SP : char := 32.
Definition HASH : char := 35.
Definition DQUOTE : char := 34.
Definition PIPE : char := 124.
Definition BACKSLASH : char := 92.

Fixpoint jsstring_eqb (a b : jsstring) : bool :=
  match a, b with
  | [], [] => true
  | x :: a', y :: b' => (x =? y) && jsstring_eqb a' b'
  | _, _ => false
  end.

(** ECMAScript WhiteSpace and LineTerminator: the class [\s] of a regular
    expression and the characters [String.prototype.trim] strips. *)
Definition is_line_terminator (c : char) : bool :=
  (c =? 10) || (c =? 13) || (c =? 8232) || (c =? 8233).

Definition is_space (c : char) : bool :=
  (c =? 9) || (c =? 11) || (c =? 12) || (c =? 32) || (c =? 160)
  || (c =? 5760) || ((8192 <=? c) && (c <=? 8202)) || (c =? 8239)
  || (c =? 8287) || (c =? 12288) || (c =? 65279)
  || is_line_terminator c.

(** The class [[ \t]]. *)
Definition is_blank (c : char) : bool := (c =? 32) || (c =? 9).

(** The class [\n]. *)
Definition is_LF (c : char) : bool := c =? LF.

(** "ASCII whitespace" of the DOM standard (used by [document.title]). *)
Definition is_ascii_whitespace (c : char) : bool :=
  (c =? 9) || (c =? 10) || (c =? 12) || (c =? 13) || (c =? 32).

Fixpoint dropWhile (p : char -> bool) (s : jsstring) : jsstring :=
  match s with
  | [] => []
  | c :: rest => if p c then dropWhile p rest else s
  end.

Definition dropWhileEnd (p : char -> bool) (s : jsstring) : jsstring :=
  rev (dropWhile p (rev s)).

(** [s.trim()] *)
Definition trim (s : jsstring) : jsstring :=
  dropWhileEnd is_space (dropWhile is_space s).

(** Truthiness of a string: non-empty. *)
Definition truthy (s : jsstring) : bool :=
  match s with [] => false | _ => true end.

(** [s.charAt(i)] *)
Definition charAt (s : jsstring) (i : nat) : jsstring :=
  match nth_error s i with Some c => [c] | None => [] end.

(** [arr.join(sep)] *)
Fixpoint join (sep : jsstring) (parts : list jsstring) : jsstring :=
  match parts with
  | [] => []
  | [p] => p
  | p :: rest => p ++ sep ++ join sep rest
  end.

(** [s.split("\n")]: the pieces between the separators, never an empty
    array. *)
Fixpoint split_on (sep : char) (s : jsstring) : list jsstring :=
  match s with
  | [] => [[]]
  | c :: rest =>
      if c =? sep then [] :: split_on sep rest
      else match split_on sep rest with
           | [] => [[c]]
           | piece :: pieces => (c :: piece) :: pieces
           end
  end.

(** The decimal numeral of a non-negative integer, as [`${n}`] prints it. *)
Definition decimal (n : N) : jsstring :=
  lit (NilEmpty.string_of_uint (N.to_uint n)).

(** *** Global replacement of a pattern [C+...]

    For a pattern that starts with [C+] for a character class [C],
    [replace(/C+.../g, ...)] finds its matches from left to right, and a
    match can only start where a maximal run of [C] characters starts: the
    greedy [C+] takes the whole run, and giving characters back never helps
    the patterns used here, because what follows [C+] in them ([#], [$], or
    nothing) cannot match a character of [C].  So the replacement is a scan
    that hands every maximal run, with the text after it, to [subst]. *)
Section Runs.
Variable cls : char -> bool.
Variable subst : jsstring -> jsstring -> jsstring.

Definition flush (run_rev rest : jsstring) : jsstring :=
  match run_rev with
  | [] => []
  | _ => subst (rev run_rev) rest
  end.

Fixpoint scan (run_rev s : jsstring) : jsstring :=
  match s with
  | [] => flush run_rev []
  | c :: rest =>
      if cls c then scan (c :: run_rev) rest
      else flush run_rev s ++ c :: scan [] rest
  end.

Definition replace_runs (s : jsstring) : jsstring := scan [] s.
End Runs.

(** [s.replace(/\s+/g, " ")] *)
Definition collapse_whitespace (s : jsstring) : jsstring :=
  replace_runs is_space (fun _ _ => [SP]) s.

(** [s.replace(/\|/g, "\\|")] *)
Definition escape_pipes (s : jsstring) : jsstring :=
  flat_map (fun c => if c =? PIPE then [BACKSLASH; PIPE] else [c]) s.

(** ** Errors *)

Inductive exn := RangeError | TypeError.

Inductive completion (A : Type) :=
| Ok (a : A)
| Throw (e : exn).
Arguments Ok {A} a.
Arguments Throw {A} e.

Definition bind {A B} (r : completion A) (k : A -> completion B) : completion B :=
  match r with
  | Ok a => k a
  | Throw e => Throw e
  end.

Notation "x <- r ;; k" := (bind r (fun x => k))
  (at level 61, r at next level, right associativity).

(** [parseInt(s)] on a decimal numeral: leading whitespace is skipped and
    the longest prefix of decimal digits is read; [None] is NaN.  (Signs
    and the [0x] prefix are left out: the converter applies [parseInt] to
    one character of a tag name.) *)
Definition digit (c : char) : option Z :=
  if (48 <=? c) && (c <=? 57) then Some (Z.of_N (c - 48)) else None.

Fixpoint digits (acc : Z) (s : jsstring) : Z :=
  match s with
  | [] => acc
  | c :: rest =>
      match digit c with
      | Some d => digits (10 * acc + d) rest
      | None => acc
      end
  end.

Definition parseInt (s : jsstring) : option Z :=
  match dropWhile is_space s with
  | [] => None
  | c :: rest =>
      match digit c with
      | Some d => Some (digits d rest)
      | None => None
      end
  end.

(** [s.repeat(count)]: NaN counts as 0, a negative count throws. *)
Definition js_repeat (s : jsstring) (count : option Z) : completion jsstring :=
  match count with
  | None => Ok []
  | Some n =>
      if (n <? 0)%Z then Throw RangeError
      else Ok (concat (repeat s (Z.to_nat n)))
  end.

(** ** The document tree *)

(** A node of the parsed document.  [tagName] holds
    [element.tagName.toLowerCase()], the only form in which the converter
    looks at a tag; [Comment] stands for every node that is neither a text
    nor an element node. *)
#[warnings="-register-all"] Inductive node :=
| Text (data : jsstring)
| Element (tagName : jsstring) (attributes : list (jsstring * jsstring))
          (childNodes : list node)
| Comment (data : jsstring).

(** A document: the children of the [Document] node. *)
Definition document := list node.

Definition is_element (n : node) : bool :=
  match n with Element _ _ _ => true | _ => false end.

(** Does [tagName] equal one of the [labels]? *)
Definition case (tagName : jsstring) (labels : list string) : bool :=
  existsb (fun l => jsstring_eqb tagName (lit l)) labels.

Definition has_tag (labels : list string) (n : node) : bool :=
  match n with
  | Element tagName _ _ => case tagName labels
  | _ => false
  end.

(** [element.getAttribute(name)]; [None] is [null]. *)
Fixpoint getAttribute (name : jsstring) (attributes : list (jsstring * jsstring))
  : option jsstring :=
  match attributes with
  | [] => None
  | (k, v) :: rest => if jsstring_eqb k name then Some v else getAttribute name rest
  end.

(** The concatenated data of the text nodes below (or at) a node, in tree
    order. *)
Fixpoint descendant_text (n : node) : jsstring :=
  match n with
  | Text data => data
  | Element _ _ childNodes => flat_map descendant_text childNodes
  | Comment _ => []
  end.

(** [node.textContent] *)
Definition textContent (n : node) : jsstring :=
  match n with
  | Comment data => data
  | _ => descendant_text n
  end.

(** The elements of a subtree in tree order, its root included. *)
Fixpoint subtree (n : node) : list node :=
  match n with
  | Element _ _ childNodes => n :: flat_map subtree childNodes
  | _ => []
  end.

(** The element descendants of a node, in tree order. *)
Definition descendants (n : node) : list node :=
  match n with
  | Element _ _ childNodes => flat_map subtree childNodes
  | _ => []
  end.

(** [root.querySelectorAll("t1, t2, ...")] for a list of type selectors. *)
Definition querySelectorAll (labels : list string) (root : node) : list node :=
  filter (has_tag labels) (descendants root).

(** [root.querySelector("t1, t2, ...")]; [None] is [null]. *)
Definition querySelector (labels : list string) (root : node) : option node :=
  hd_error (querySelectorAll labels root).

(** [doc.querySelectorAll(...)] on the whole document. *)
Definition doc_querySelectorAll (p : node -> bool) (doc : document) : list node :=
  filter p (flat_map subtree doc).

(** [doc.querySelectorAll(sel).forEach((el) => el.remove())]: every matching
    element is detached from its parent, so no matching element is left at
    any depth. *)
Fixpoint remove_all (labels : list string) (n : node) : node :=
  match n with
  | Element tagName attributes childNodes =>
      Element tagName attributes
        (flat_map (fun child =>
                     if has_tag labels child then []
                     else [remove_all labels child])
                  childNodes)
  | _ => n
  end.

Definition doc_remove_all (labels : list string) (doc : document) : document :=
  flat_map (fun child =>
              if has_tag labels child then [] else [remove_all labels child])
           doc.

(** [doc.documentElement]: the first element child of the document. *)
Definition documentElement (doc : document) : option node :=
  find is_element doc.

(** [doc.body]: the first [body] or [frameset] child of the [html]
    document element. *)
Definition body (doc : document) : option node :=
  match documentElement doc with
  | Some (Element tagName _ childNodes) =>
      if case tagName ["html"]
      then find (has_tag ["body"; "frameset"]) childNodes
      else None
  | _ => None
  end.

(** "Strip and collapse ASCII whitespace" of the DOM standard. *)
Definition strip_and_collapse (s : jsstring) : jsstring :=
  dropWhileEnd is_ascii_whitespace
    (dropWhile is_ascii_whitespace
       (replace_runs is_ascii_whitespace (fun _ _ => [SP]) s)).

(** The data of the text node children of an element. *)
Definition child_text_content (n : node) : jsstring :=
  match n with
  | Element _ _ childNodes =>
      flat_map (fun c => match c with Text data => data | _ => [] end) childNodes
  | _ => []
  end.

(** The namespace of an element.  The tree does not record it, but the
    tree is what the HTML parser builds, and the parser's rules fix the
    namespace of an element from its tag name and the element it is
    inserted in: under an HTML element, and at the integration points of
    foreign content (SVG [foreignObject], [desc] and [title]; MathML [mi],
    [mo], [mn], [ms] and [mtext], and [annotation-xml] for an HTML
    encoding or an [svg] child), the rules for HTML content apply, where
    [svg] and [math] start foreign content and every other tag is an HTML
    element; elsewhere an element has the namespace of its parent. *)
Inductive namespace := HTMLNamespace | SVGNamespace | MathMLNamespace.

Definition tag_of (n : node) : jsstring :=
  match n with Element tagName _ _ => tagName | _ => [] end.

Definition ascii_lowercase (s : jsstring) : jsstring :=
  map (fun c => if (65 <=? c) && (c <=? 90) then c + 32 else c) s.

Definition html_encoding (attributes : list (jsstring * jsstring)) : bool :=
  match getAttribute (lit "encoding") attributes with
  | Some v =>
      jsstring_eqb (ascii_lowercase v) (lit "text/html")
      || jsstring_eqb (ascii_lowercase v) (lit "application/xhtml+xml")
  | None => false
  end.

Definition html_rules_apply (parent : namespace) (parentTag : jsstring)
           (parentAttributes : list (jsstring * jsstring)) (tagName : jsstring)
  : bool :=
  match parent with
  | HTMLNamespace => true
  | SVGNamespace => case parentTag ["foreignobject"; "desc"; "title"]
  | MathMLNamespace =>
      (case parentTag ["mi"; "mo"; "mn"; "ms"; "mtext"]
       && negb (case tagName ["mglyph"; "malignmark"]))
      || (case parentTag ["annotation-xml"]
          && (case tagName ["svg"] || html_encoding parentAttributes))
  end.

Definition namespace_in (parent : namespace) (parentTag : jsstring)
           (parentAttributes : list (jsstring * jsstring)) (tagName : jsstring)
  : namespace :=
  if html_rules_apply parent parentTag parentAttributes tagName then
    if case tagName ["svg"] then SVGNamespace
    else if case tagName ["math"] then MathMLNamespace
    else HTMLNamespace
  else parent.

(** The HTML elements of a subtree in tree order, for a root of namespace
    [ns]. *)
Fixpoint html_elements (ns : namespace) (n : node) : list node :=
  match n with
  | Element tagName attributes childNodes =>
      match ns with HTMLNamespace => [n] | _ => [] end
      ++ flat_map (fun child =>
                     html_elements
                       (namespace_in ns tagName attributes (tag_of child))
                       child)
                  childNodes
  | _ => []
  end.

Definition doc_html_elements (doc : document) : list node :=
  flat_map (fun child =>
              html_elements (namespace_in HTMLNamespace [] [] (tag_of child))
                            child)
           doc.

(** [doc.title]: the child text content of the first HTML [title] element
    in tree order (a [title] of SVG or MathML content does not count),
    stripped and collapsed; empty without such an element. *)
Definition title (doc : document) : jsstring :=
  match filter (has_tag ["title"]) (doc_html_elements doc) with
  | t :: _ => strip_and_collapse (child_text_content t)
  | [] => []
  end.

(** [doc.querySelector('meta[name="description"]')?.getAttribute("content")] *)
Definition is_meta_description (n : node) : bool :=
  match n with
  | Element tagName attributes _ =>
      case tagName ["meta"]
      && match getAttribute (lit "name") attributes with
         | Some v => jsstring_eqb v (lit "description")
         | None => false
         end
  | _ => false
  end.

Definition meta_description (doc : document) : option jsstring :=
  match doc_querySelectorAll is_meta_description doc with
  | Element _ attributes _ :: _ => getAttribute (lit "content") attributes
  | _ => None
  end.

(** ** The converter *)

Record ConversionOptions := {
  preserveImages : option bool;
  preserveLinks : option bool;
  includeMetadata : option bool
}.

(** Truthiness of an optional boolean property. *)
Definition flag (b : option bool) : bool :=
  match b with Some true => true | _ => false end.

(** A destructuring default: [{ p = false } = options]. *)
Definition default_false (b : option bool) : bool :=
  match b with Some v => v | None => false end.

(** [getTextContent(element)] *)
Definition getTextContent (element : node) : jsstring :=
  trim (collapse_whitespace (textContent element)).

(** The body of [rows.forEach((row, rowIndex) => ...)] in [convertTable],
    with the [result] built so far. *)
Fixpoint convertTable_rows (rows : list node) (rowIndex : N) (result : jsstring)
  : jsstring :=
  match rows with
  | [] => result
  | row :: rest =>
      let cells := querySelectorAll ["td"; "th"] row in
      let cellTexts :=
        map (fun cell => trim (escape_pipes (getTextContent cell))) cells in
      let result :=
        result ++ lit "| " ++ join (lit " | ") cellTexts ++ lit " |" ++ [LF] in
      let result :=
        if (rowIndex =? 0)
           && match querySelector ["th"] row with Some _ => true | None => false end
        then result ++ lit "| "
                    ++ join (lit " | ") (map (fun _ => lit "---") cellTexts)
                    ++ lit " |" ++ [LF]
        else result in
      convertTable_rows rest (rowIndex + 1) result
  end.

Definition convertTable (tableElement : node) (options : ConversionOptions)
  : jsstring :=
  let rows := querySelectorAll ["tr"] tableElement in
  if (length rows =? 0)%nat then []
  else convertTable_rows rows 0 [LF] ++ [LF].

(** [convertElement], [convertChildren] and [convertList] call each other;
    inside this section [convertElement_rec] is the recursive call of
    [convertElement] on a child. *)
Section Recursion.
Variable convertElement_rec :
  node -> Z -> ConversionOptions -> completion jsstring.

(** The loop [for (const child of element.childNodes)] of
    [convertChildren], from the children still to visit and the [result]
    built so far. *)
Fixpoint convertChildren_loop (childNodes : list node) (depth : Z)
         (options : ConversionOptions) (result : jsstring)
  : completion jsstring :=
  match childNodes with
  | [] => Ok result
  | child :: rest =>
      match child with
      | Text data =>
          let text := trim data in
          convertChildren_loop rest depth options
            (if truthy text then result ++ text ++ [SP] else result)
      | Element _ _ _ =>
          converted <- convertElement_rec child (depth + 1)%Z options ;;
          convertChildren_loop rest depth options (result ++ converted)
      | Comment _ => convertChildren_loop rest depth options result
      end
  end.

Definition convertChildren_body (element : node) (depth : Z)
           (options : ConversionOptions) : completion jsstring :=
  match element with
  | Element _ _ childNodes => convertChildren_loop childNodes depth options []
  | _ => Ok []
  end.

(** [items.forEach((item, index) => ...)] of [convertList] over the
    children of the list element: the items are its [li] element
    children ([:scope > li]), [index] counts the items met so far. *)
Fixpoint convertList_loop (childNodes : list node) (index : N) (depth : Z)
         (options : ConversionOptions) (isOrdered : bool) (result : jsstring)
  : completion jsstring :=
  match childNodes with
  | [] => Ok result
  | item :: rest =>
      match item with
      | Element tagName _ itemChildren =>
          if case tagName ["li"] then
            let prefix :=
              if isOrdered then decimal (index + 1) ++ lit ". " else lit "- " in
            converted <-
              convertChildren_loop itemChildren (depth + 1)%Z options [] ;;
            let itemText := trim converted in
            convertList_loop rest (index + 1) depth options isOrdered
              (result ++ prefix ++ itemText ++ [LF])
          else convertList_loop rest index depth options isOrdered result
      | _ => convertList_loop rest index depth options isOrdered result
      end
  end.

Definition convertList_body (listElement : node) (depth : Z)
           (options : ConversionOptions) (isOrdered : bool)
  : completion jsstring :=
  match listElement with
  | Element _ _ childNodes =>
      result <- convertList_loop childNodes 0 depth options isOrdered [LF] ;;
      Ok (result ++ [LF])
  | _ => Ok [LF; LF]
  end.

(** The [switch (tagName)] of [convertElement]. *)
Definition convertElement_body (element : node) (depth : Z)
           (options : ConversionOptions) : completion jsstring :=
  match element with
  | Element tagName attributes childNodes =>
      if case tagName ["h1"; "h2"; "h3"; "h4"; "h5"; "h6"] then
        let level := parseInt (charAt tagName 1) in
        let headingText := getTextContent element in
        hashes <- js_repeat (lit "#") level ;;
        Ok ([LF] ++ hashes ++ lit " " ++ headingText ++ [LF; LF])
      else if case tagName ["p"] then
        pText <- convertChildren_loop childNodes depth options [] ;;
        Ok (if truthy (trim pText) then pText ++ [LF; LF] else [])
      else if case tagName ["div"; "section"; "article"; "main"] then
        convertChildren_loop childNodes depth options []
      else if case tagName ["ul"; "ol"] then
        convertList_body element depth options (jsstring_eqb tagName (lit "ol"))
      else if case tagName ["li"] then
        Ok []
      else if case tagName ["a"] then
        if flag (preserveLinks options) then
          let href := getAttribute (lit "href") attributes in
          let text := getTextContent element in
          match href with
          | Some ((_ :: _) as h) =>
              if truthy text
              then Ok (lit "[" ++ text ++ lit "](" ++ h ++ lit ")")
              else Ok text
          | _ => Ok text
          end
        else Ok (getTextContent element)
      else if case tagName ["img"] then
        if flag (preserveImages options) then
          let src := getAttribute (lit "src") attributes in
          let alt :=
            match getAttribute (lit "alt") attributes with
            | Some ((_ :: _) as a) => a
            | _ => []
            end in
          match src with
          | Some ((_ :: _) as u) =>
              Ok (lit "![" ++ alt ++ lit "](" ++ u ++ lit ")")
          | _ => Ok []
          end
        else Ok []
      else if case tagName ["strong"; "b"] then
        let strongText := getTextContent element in
        Ok (lit "**" ++ strongText ++ lit "**")
      else if case tagName ["em"; "i"] then
        let emText := getTextContent element in
        Ok (lit "*" ++ emText ++ lit "*")
      else if case tagName ["code"] then
        let codeText := getTextContent element in
        Ok (lit "`" ++ codeText ++ lit "`")
      else if case tagName ["pre"] then
        let preText := getTextContent element in
        Ok ([LF] ++ lit "```" ++ [LF] ++ preText ++ [LF] ++ lit "```" ++ [LF; LF])
      else if case tagName ["blockquote"] then
        quoteText <- convertChildren_loop childNodes depth options [] ;;
        let quotedLines :=
          join [LF]
            (map (fun line =>
                    if truthy (trim line) then lit "> " ++ line else lit ">")
                 (split_on LF quoteText)) in
        Ok ([LF] ++ quotedLines ++ [LF; LF])
      else if case tagName ["br"] then
        Ok [LF]
      else if case tagName ["hr"] then
        Ok ([LF] ++ lit "---" ++ [LF; LF])
      else if case tagName ["table"] then
        Ok (convertTable element options)
      else
        convertChildren_loop childNodes depth options []
  | _ =>
      (* [element.tagName] is [undefined] on a node that is no element *)
      Throw TypeError
  end.
End Recursion.

Fixpoint convertElement (element : node) (depth : Z) (options : ConversionOptions)
         {struct element} : completion jsstring :=
  convertElement_body convertElement element depth options.

Definition convertChildren (element : node) (depth : Z)
           (options : ConversionOptions) : completion jsstring :=
  convertChildren_body convertElement element depth options.

Definition convertList (listElement : node) (depth : Z)
           (options : ConversionOptions) (isOrdered : bool)
  : completion jsstring :=
  convertList_body convertElement listElement depth options isOrdered.

(** ** The post-processor *)

(** [.replace(/\n{3,}/g, "\n\n")]: a run of three or more newlines is a
    match, a shorter run is not. *)
Definition at_most_two (run : jsstring) : jsstring :=
  if (3 <=? length run)%nat then [LF; LF] else run.

Definition collapse_newlines (s : jsstring) : jsstring :=
  replace_runs is_LF (fun run _ => at_most_two run) s.

(** [.replace(/\n+#/g, "\n\n#")]: the [#] that ends a match stays where it
    is, the newlines before it become two. *)
Definition two_before_hash (run rest : jsstring) : jsstring :=
  match rest with
  | c :: _ => if c =? HASH then [LF; LF] else run
  | [] => run
  end.

Definition space_headers (s : jsstring) : jsstring :=
  replace_runs is_LF two_before_hash s.

(** [.replace(/[ \t]+$/gm, "")]: with the [m] flag [$] holds at the end of
    the input and before a line terminator. *)
Definition none_at_line_end (run rest : jsstring) : jsstring :=
  match rest with
  | [] => []
  | c :: _ => if is_line_terminator c then [] else run
  end.

Definition strip_line_ends (s : jsstring) : jsstring :=
  replace_runs is_blank none_at_line_end s.

(** [.replace(/\n*$/, "\n")]: without [g] and [m], the one match is the
    run of newlines that ends the input (empty when there is none). *)
Definition end_with_newline (s : jsstring) : jsstring :=
  dropWhileEnd is_LF s ++ [LF].

Definition cleanupMdx (mdx : jsstring) : jsstring :=
  trim (end_with_newline (strip_line_ends (space_headers (collapse_newlines mdx)))).

(** ** The entry point *)

(** [htmlToMdx], from the document the parser returns for [html]; [now] is
    the value of [new Date().toISOString()] at the call. *)
Definition htmlToMdx (doc : document) (options : ConversionOptions)
           (now : jsstring) : completion jsstring :=
  let preserveImages_ := default_false (preserveImages options) in
  let preserveLinks_ := default_false (preserveLinks options) in
  let includeMetadata_ := default_false (includeMetadata options) in
  let doc := doc_remove_all ["script"; "style"; "noscript"] doc in
  let bodyContent :=
    match body doc with
    | Some b => Some b
    | None => documentElement doc
    end in
  let mdx := [] in
  let mdx :=
    if includeMetadata_ then
      let title_ := match title doc with [] => lit "Untitled" | t => t end in
      let description :=
        match meta_description doc with Some d => d | None => [] end in
      let mdx := mdx ++ lit "---" ++ [LF] in
      let mdx := mdx ++ lit "title: " ++ [DQUOTE] ++ title_ ++ [DQUOTE; LF] in
      let mdx :=
        if truthy description
        then mdx ++ lit "description: " ++ [DQUOTE] ++ description ++ [DQUOTE; LF]
        else mdx in
      let mdx := mdx ++ lit "date: " ++ [DQUOTE] ++ now ++ [DQUOTE; LF] in
      mdx ++ lit "---" ++ [LF; LF]
    else mdx in
  converted <-
    match bodyContent with
    | Some element =>
        convertElement element 0
          {| preserveImages := Some preserveImages_;
             preserveLinks := Some preserveLinks_;
             includeMetadata := None |}
    | None => Ok []   (* [if (!element) return ""] *)
    end ;;
  Ok (cleanupMdx (mdx ++ converted)).

(** ** Definitions used to state the properties *)

(** A page with the given body content. *)
Definition page (content : list node) : document :=
  [Element (lit "html") []
     [Element (lit "head") [] []; Element (lit "body") [] content]].

(** [htmlToMdx(html)]: no option given. *)
Definition no_options : ConversionOptions :=
  {| preserveImages := None; preserveLinks := None; includeMetadata := None |}.

(** The call returns normally. *)
Definition returns (r : completion jsstring) : Prop := exists s, r = Ok s.

(** The tags [htmlToMdx] removes, and what removal makes of one child. *)
Definition removed : list string := ["script"; "style"; "noscript"].

Definition detach (child : node) : list node :=
  if has_tag removed child then [] else [remove_all removed child].

(** What one child adds to the result of child aggregation. *)
Definition child_piece (child : node) (depth : Z) (options : ConversionOptions)
  : completion jsstring :=
  match child with
  | Text data =>
      let text := trim data in
      Ok (if truthy text then text ++ [SP] else [])
  | Element _ _ _ => convertElement child (depth + 1)%Z options
  | Comment _ => Ok []
  end.

(** The same with the text of a text child collapsed before it is trimmed,
    as the specification words it. *)
Definition child_piece_collapsing (child : node) (depth : Z)
           (options : ConversionOptions) : completion jsstring :=
  match child with
  | Text data =>
      let text := trim (collapse_whitespace data) in
      Ok (if truthy text then text ++ [SP] else [])
  | _ => child_piece child depth options
  end.

(** The pieces in order, appended; the first error wins. *)
Fixpoint append_all (pieces : list (completion jsstring)) : completion jsstring :=
  match pieces with
  | [] => Ok []
  | piece :: rest =>
      x <- piece ;; y <- append_all rest ;; Ok (x ++ y)
  end.

(** A fenced code block around [text]. *)
Definition fenced (text : jsstring) : jsstring :=
  [LF] ++ lit "```" ++ [LF] ++ text ++ [LF] ++ lit "```" ++ [LF; LF].

(** Flattened text: the only whitespace characters are single spaces
    between other characters. *)
Definition single_spaces_only (t : jsstring) : Prop :=
  (forall c, In c t -> is_space c = true -> c = SP)
  /\ (forall front back, t <> front ++ [SP; SP] ++ back)
  /\ (forall c rest, t = c :: rest -> is_space c = false)
  /\ (forall front c, t = front ++ [c] -> is_space c = false).

(** The same as a check, from left to right; [after_space] tells that the
    character before [t] is a space (or that [t] is the start). *)
Fixpoint single_spaced (after_space : bool) (t : jsstring) : bool :=
  match t with
  | [] => true
  | c :: rest =>
      if is_space c
      then (c =? SP) && negb after_space && single_spaced true rest
      else single_spaced false rest
  end.

(** The characters of [s] that are not whitespace. *)
Definition visible (s : jsstring) : jsstring :=
  filter (fun c => negb (is_space c)) s.

(** Does [s] contain [n] newline characters in a row ([seen] of them just
    before [s])? *)
Fixpoint newline_run_from (n seen : nat) (s : jsstring) : bool :=
  (n <=? seen)%nat
  || match s with
     | [] => false
     | c :: rest =>
         if c =? LF then newline_run_from n (S seen) rest
         else newline_run_from n 0 rest
     end.

Definition newline_run (n : nat) (s : jsstring) : bool := newline_run_from n 0 s.

(** No space or tab stands right before a line terminator or at the end. *)
Fixpoint line_ends_clean (s : jsstring) : bool :=
  match s with
  | [] => true
  | c :: rest =>
      (negb (is_blank c)
       || match rest with
          | [] => false
          | d :: _ => negb (is_line_terminator d)
          end)
      && line_ends_clean rest
  end.

(** No [#] follows exactly one newline ([seen] newlines stand just before
    [s]). *)
Fixpoint headers_spaced_from (seen : nat) (s : jsstring) : bool :=
  match s with
  | [] => true
  | c :: rest =>
      if c =? LF then headers_spaced_from (S seen) rest
      else (negb (c =? HASH) || negb (seen =? 1)%nat)
           && headers_spaced_from 0 rest
  end.

(** The line of a table row: its cells' texts between pipes. *)
Definition cell_text (cell : node) : jsstring :=
  trim (escape_pipes (getTextContent cell)).

Definition row_cells (row : node) : list node :=
  querySelectorAll ["td"; "th"] row.

Definition row_line (row : node) : jsstring :=
  lit "| " ++ join (lit " | ") (map cell_text (row_cells row)) ++ lit " |" ++ [LF].

(** The separator line for a given number of columns. *)
Definition separator_line (columns : nat) : jsstring :=
  lit "| " ++ join (lit " | ") (repeat (lit "---") columns) ++ lit " |" ++ [LF].

(** Two nodes that differ at most below [script], [style] and [noscript]
    elements. *)
#[warnings="-register-all"] Inductive script_variant : node -> node -> Prop :=
| variant_same n : script_variant n n
| variant_inside tagName attributes childNodes childNodes' :
    case tagName ["script"; "style"; "noscript"] = true ->
    script_variant (Element tagName attributes childNodes)
                   (Element tagName attributes childNodes')
| variant_below tagName attributes childNodes childNodes' :
    Forall2 script_variant childNodes childNodes' ->
    script_variant (Element tagName attributes childNodes)
                   (Element tagName attributes childNodes').

(** The items of a list element: its [li] element children. *)
Definition list_items (listElement : node) : list node :=
  match listElement with
  | Element _ _ childNodes => filter (has_tag ["li"]) childNodes
  | _ => []
  end.

(** The line of the item at position [index] (from 0) of a list. *)
Definition item_line (depth : Z) (options : ConversionOptions)
           (isOrdered : bool) (index : N) (item : node) : completion jsstring :=
  converted <- convertChildren item (depth + 1)%Z options ;;
  Ok ((if isOrdered then decimal (index + 1) ++ lit ". " else lit "- ")
        ++ trim converted ++ [LF]).

Fixpoint item_lines (depth : Z) (options : ConversionOptions)
         (isOrdered : bool) (index : N) (items : list node)
  : list (completion jsstring) :=
  match items with
  | [] => []
  | item :: rest =>
      item_line depth options isOrdered index item
      :: item_lines depth options isOrdered (index + 1) rest
  end.

(** Every [|] of [s] stands right after a backslash ([after_backslash]
    tells whether one stands right before [s]). *)
Fixpoint pipes_escaped_from (after_backslash : bool) (s : jsstring) : bool :=
  match s with
  | [] => true
  | c :: rest =>
      (negb (c =? PIPE) || after_backslash)
      && pipes_escaped_from (c =? BACKSLASH) rest
  end.

(** The text read back: a backslash right before a [|] is dropped. *)
Fixpoint unescape_pipes (s : jsstring) : jsstring :=
  match s with
  | [] => []
  | c :: rest =>
      if c =? BACKSLASH then
        match rest with
        | d :: rest' =>
            if d =? PIPE then PIPE :: unescape_pipes rest'
            else c :: unescape_pipes rest
        | [] => [c]
        end
      else c :: unescape_pipes rest
  end.

(** A line of a quotation starts with [>]. *)
Definition quoted_line (line : jsstring) : Prop :=
  exists rest, line = 62 :: rest.

(** The same tree without any attribute. *)
Fixpoint strip_attributes (n : node) : node :=
  match n with
  | Element tagName _ childNodes =>
      Element tagName [] (map strip_attributes childNodes)
  | _ => n
  end.

(** How the front matter starts. *)
Definition front_matter_opener : jsstring :=
  lit "---" ++ [LF] ++ lit "title: " ++ [DQUOTE].

(** * Properties *)

(** ** Induction over a document tree *)

Lemma node_tree_ind (P : node -> Prop) :
  (forall data, P (Text data)) ->
  (forall data, P (Comment data)) ->
  (forall tagName attributes childNodes,
      Forall P childNodes -> P (Element tagName attributes childNodes)) ->
  forall n, P n.
Proof.
  intros HText HComment HElement.
  fix IH 1.
  intros [data | tagName attributes childNodes | data].
  - apply HText.
  - apply HElement.
    induction childNodes as [| c cs IHcs]; constructor.
    + apply IH.
    + exact IHcs.
  - apply HComment.
Qed.

(** ** Strings and tags *)

Lemma jsstring_eqb_eq (a b : jsstring) : jsstring_eqb a b = true <-> a = b.
Proof.
  revert b. induction a as [| x a IH]; intros [| y b]; simpl; split;
    try easy.
  - intros H. apply andb_true_iff in H as [Hx Hab].
    apply N.eqb_eq in Hx. apply IH in Hab. now subst.
  - intros H. injection H as -> ->.
    rewrite N.eqb_refl. simpl. now apply IH.
Qed.

Lemma case_In (tagName : jsstring) (labels : list string) :
  case tagName labels = true -> exists l, In l labels /\ tagName = lit l.
Proof.
  unfold case. intros H. apply existsb_exists in H as (l & Hin & Heq).
  exists l. split; [exact Hin | now apply jsstring_eqb_eq].
Qed.

Lemma dropWhile_head (p : char -> bool) (s : jsstring) c rest :
  dropWhile p s = c :: rest -> p c = false.
Proof.
  induction s as [| x s IH]; simpl; [discriminate |].
  destruct (p x) eqn:Hx; [exact IH |].
  intros H. injection H as -> _. exact Hx.
Qed.

Lemma dropWhileEnd_last (p : char -> bool) (s : jsstring) front c :
  dropWhileEnd p s = front ++ [c] -> p c = false.
Proof.
  unfold dropWhileEnd. intros H.
  apply (f_equal (@rev char)) in H.
  rewrite rev_involutive, rev_app_distr in H. simpl in H.
  now apply dropWhile_head in H.
Qed.

Lemma trim_last (s front : jsstring) c :
  trim s = front ++ [c] -> is_space c = false.
Proof. apply dropWhileEnd_last. Qed.

(** ** Unfolding the recursion *)

Lemma convertElement_unfold (element : node) depth options :
  convertElement element depth options
  = convertElement_body convertElement element depth options.
Proof. destruct element; reflexivity. Qed.

#[local] Arguments convertElement : simpl never.
#[local] Arguments case : simpl never.

Lemma bind_ret {A} (r : completion A) : (x <- r ;; Ok x) = r.
Proof. now destruct r. Qed.

(** ** Child aggregation *)

Lemma convertChildren_loop_pieces childNodes depth options result :
  convertChildren_loop convertElement childNodes depth options result
  = (x <- append_all (map (fun c => child_piece c depth options) childNodes) ;;
     Ok (result ++ x)).
Proof.
  revert result.
  induction childNodes as [| child rest IH]; intros result; simpl.
  - now rewrite app_nil_r.
  - destruct child as [data | tagName attributes cs | data]; simpl.
    + rewrite IH.
      destruct (append_all _) as [y | e]; simpl; [| reflexivity].
      destruct (truthy (trim data)); simpl; [| reflexivity].
      now rewrite <- !app_assoc.
    + destruct (convertElement _ _ _) as [x | e]; simpl; [| reflexivity].
      rewrite IH.
      destruct (append_all _) as [y | e]; simpl; [| reflexivity].
      now rewrite <- app_assoc.
    + rewrite IH. now destruct (append_all _).
Qed.

(** C3, as the code has it: child aggregation appends, in document order,
    for a text child its trimmed text (internal whitespace left as it is)
    followed by one space when that text is not empty, for an element child
    the output of [convertElement] on it one level deeper, and nothing for
    any other node. *)
Theorem convertChildren_appends_pieces tagName attributes childNodes depth options :
  convertChildren (Element tagName attributes childNodes) depth options
  = append_all (map (fun c => child_piece c depth options) childNodes).
Proof.
  unfold convertChildren, convertChildren_body.
  rewrite convertChildren_loop_pieces. simpl.
  apply bind_ret.
Qed.

(** C3 as stated fails: the text child ["a  b"] (two spaces) is appended
    with both spaces, not collapsed to ["a b"]. *)
Lemma convertChildren_keeps_inner_whitespace :
  let p := Element (lit "p") [] [Text (lit "a  b")] in
  convertChildren p 0 no_options = Ok (lit "a  b ")
  /\ append_all (map (fun c => child_piece_collapsing c 0 no_options) [Text (lit "a  b")])
     = Ok (lit "a b ")
  /\ convertChildren p 0 no_options
     <> append_all (map (fun c => child_piece_collapsing c 0 no_options)
                        [Text (lit "a  b")]).
Proof. repeat split; try reflexivity. vm_compute. discriminate. Qed.

(** ** The depth counter *)

Lemma convertChildren_loop_depth childNodes :
  Forall (fun c => forall d1 d2 o, convertElement c d1 o = convertElement c d2 o)
         childNodes ->
  forall d1 d2 options result,
    convertChildren_loop convertElement childNodes d1 options result
    = convertChildren_loop convertElement childNodes d2 options result.
Proof.
  induction 1 as [| child rest Hchild _ IH]; intros d1 d2 options result;
    simpl; [reflexivity |].
  destruct child; [apply IH | | apply IH].
  rewrite (Hchild (d1 + 1)%Z (d2 + 1)%Z).
  destruct (convertElement _ _ _); simpl; [apply IH | reflexivity].
Qed.

Lemma convertList_loop_depth childNodes :
  Forall (fun c => forall d1 d2 o, convertChildren c d1 o = convertChildren c d2 o)
         childNodes ->
  forall index d1 d2 options isOrdered result,
    convertList_loop convertElement childNodes index d1 options isOrdered result
    = convertList_loop convertElement childNodes index d2 options isOrdered result.
Proof.
  induction 1 as [| item rest Hitem _ IH];
    intros index d1 d2 options isOrdered result; simpl; [reflexivity |].
  destruct item as [data | tagName attributes itemChildren | data];
    [apply IH | | apply IH].
  destruct (case tagName ["li"]); [| apply IH].
  specialize (Hitem (d1 + 1)%Z (d2 + 1)%Z options).
  unfold convertChildren, convertChildren_body in Hitem. rewrite Hitem.
  destruct (convertChildren_loop convertElement itemChildren (d2 + 1)%Z options []);
    simpl; [apply IH | reflexivity].
Qed.

Lemma depth_irrelevant (n : node) :
  (forall d1 d2 o, convertElement n d1 o = convertElement n d2 o)
  /\ (forall d1 d2 o, convertChildren n d1 o = convertChildren n d2 o).
Proof.
  induction n as [data | data | tagName attributes childNodes IH]
    using node_tree_ind; try (split; reflexivity).
  assert (Hloop : forall d1 d2 options result,
             convertChildren_loop convertElement childNodes d1 options result
             = convertChildren_loop convertElement childNodes d2 options result).
  { apply convertChildren_loop_depth.
    eapply Forall_impl; [| exact IH]. now intros c [Hc _]. }
  assert (Hlist : forall index d1 d2 options isOrdered result,
             convertList_loop convertElement childNodes index d1 options
               isOrdered result
             = convertList_loop convertElement childNodes index d2 options
                 isOrdered result).
  { apply convertList_loop_depth.
    eapply Forall_impl; [| exact IH]. now intros c [_ Hc]. }
  split; intros d1 d2 o.
  - rewrite !convertElement_unfold.
    unfold convertElement_body, convertList_body.
    rewrite (Hloop d1 d2), (Hlist 0 d1 d2). reflexivity.
  - apply Hloop.
Qed.

(** ** Totality *)

Lemma headings_have_levels tagName :
  case tagName ["h1"; "h2"; "h3"; "h4"; "h5"; "h6"] = true ->
  exists level, (1 <= level <= 6)%Z
    /\ parseInt (charAt tagName 1) = Some level
    /\ js_repeat (lit "#") (Some level)
       = Ok (repeat HASH (Z.to_nat level)).
Proof.
  intros H. apply case_In in H as (l & Hin & ->).
  simpl in Hin.
  destruct Hin as [<- | [<- | [<- | [<- | [<- | [<- | []]]]]]];
    [exists 1%Z | exists 2%Z | exists 3%Z | exists 4%Z | exists 5%Z | exists 6%Z];
    (split; [lia | split; reflexivity]).
Qed.

Lemma convertChildren_loop_returns childNodes :
  Forall (fun c => is_element c = true ->
                   forall d o, returns (convertElement c d o)) childNodes ->
  forall depth options result,
    returns (convertChildren_loop convertElement childNodes depth options result).
Proof.
  induction 1 as [| child rest Hchild _ IH]; intros depth options result; simpl.
  - now exists result.
  - destruct child; [apply IH | | apply IH].
    destruct (Hchild eq_refl (depth + 1)%Z options) as [s ->]. simpl. apply IH.
Qed.

Lemma convertList_loop_returns childNodes :
  Forall (fun c => forall d o, returns (convertChildren c d o)) childNodes ->
  forall index depth options isOrdered result,
    returns (convertList_loop convertElement childNodes index depth options
               isOrdered result).
Proof.
  induction 1 as [| item rest Hitem _ IH];
    intros index depth options isOrdered result; simpl.
  - now exists result.
  - destruct item as [data | tagName attributes itemChildren | data];
      [apply IH | | apply IH].
    destruct (case tagName ["li"]); [| apply IH].
    destruct (Hitem (depth + 1)%Z options) as [s Hs].
    unfold convertChildren, convertChildren_body in Hs. rewrite Hs. simpl.
    apply IH.
Qed.

Lemma conversion_returns (n : node) :
  (is_element n = true -> forall d o, returns (convertElement n d o))
  /\ (forall d o, returns (convertChildren n d o)).
Proof.
  induction n as [data | data | tagName attributes childNodes IH]
    using node_tree_ind;
    try (split; [discriminate | intros; now exists []]).
  assert (Hloop : forall depth options result,
             returns (convertChildren_loop convertElement childNodes depth
                        options result)).
  { apply convertChildren_loop_returns.
    eapply Forall_impl; [| exact IH]. now intros c [Hc _]. }
  assert (Hlist : forall index depth options isOrdered result,
             returns (convertList_loop convertElement childNodes index depth
                        options isOrdered result)).
  { apply convertList_loop_returns.
    eapply Forall_impl; [| exact IH]. now intros c [_ Hc]. }
  split; [intros _ |]; intros d o; [| apply Hloop].
  rewrite convertElement_unfold.
  unfold convertElement_body, convertList_body.
  destruct (case tagName ["h1"; "h2"; "h3"; "h4"; "h5"; "h6"]) eqn:Hh.
  { destruct (headings_have_levels _ Hh) as (level & _ & -> & ->).
    simpl. now eexists. }
  destruct (Hloop d o []) as [kids ->].
  destruct (Hlist 0 d o (jsstring_eqb tagName (lit "ol")) [LF]) as [items ->].
  simpl.
  repeat match goal with
         | |- returns (if ?b then _ else _) => destruct b
         | |- returns (match ?x with _ => _ end) => destruct x
         | |- returns (Ok ?s) => now exists s
         end.
Qed.

(** C10: the depth handed down the recursion never shows in the output, of
    [convertElement] and of [convertList]: an element formats to the same
    string at any two depths, and at every depth it does format to a
    string, so no bound on the depth is enforced. *)
Theorem depth_never_matters tagName attributes childNodes options isOrdered
        (d1 d2 : Z) :
  let element := Element tagName attributes childNodes in
  convertElement element d1 options = convertElement element d2 options
  /\ convertList element d1 options isOrdered
     = convertList element d2 options isOrdered
  /\ exists s, convertElement element d1 options = Ok s.
Proof.
  intros element. split; [| split].
  - apply depth_irrelevant.
  - unfold convertList, convertList_body, element.
    rewrite (convertList_loop_depth childNodes) with (d2 := d2); [reflexivity |].
    apply Forall_forall. intros c _. apply depth_irrelevant.
  - now apply conversion_returns.
Qed.

Lemma has_tag_is_element labels n : has_tag labels n = true -> is_element n = true.
Proof. now destruct n. Qed.

Lemma bodyContent_is_element (doc : document) element :
  match body doc with Some b => Some b | None => documentElement doc end
  = Some element ->
  is_element element = true.
Proof.
  unfold body, documentElement.
  destruct (find is_element doc) as [root |] eqn:Hroot; [| discriminate].
  apply find_some in Hroot as [_ Hroot].
  destruct root as [| tagName attributes childNodes |]; try discriminate.
  destruct (case tagName ["html"]).
  - destruct (find _ childNodes) as [b |] eqn:Hb.
    + intros H. injection H as <-.
      apply find_some in Hb as [_ Hb]. now apply has_tag_is_element in Hb.
    + intros H. now injection H as <-.
  - intros H. now injection H as <-.
Qed.

Lemma htmlToMdx_cleaned (doc : document) (options : ConversionOptions)
      (now : jsstring) :
  exists mdx, htmlToMdx doc options now = Ok (cleanupMdx mdx).
Proof.
  unfold htmlToMdx.
  destruct (match body _ with Some b => Some b | None => documentElement _ end)
    as [element |] eqn:Hcontent.
  - apply bodyContent_is_element in Hcontent.
    destruct (proj1 (conversion_returns element) Hcontent 0%Z
                {| preserveImages := Some (default_false (preserveImages options));
                   preserveLinks := Some (default_false (preserveLinks options));
                   includeMetadata := None |}) as [s ->].
    cbn [bind]. now eexists.
  - cbn [bind]. now eexists.
Qed.

(** C8: the conversion is total: for every document tree, every options
    value and every clock reading, [htmlToMdx] returns a string; it never
    throws. *)
Theorem htmlToMdx_total (doc : document) (options : ConversionOptions)
        (now : jsstring) :
  exists s, htmlToMdx doc options now = Ok s.
Proof.
  destruct (htmlToMdx_cleaned doc options now) as [mdx H].
  now exists (cleanupMdx mdx).
Qed.

(** C9: the output is a function of the tree, the options and the clock
    reading, and the clock reading counts only when [includeMetadata] is
    set: two calls on the same tree and options return the same string
    when they read the same time or when [includeMetadata] is not set. *)
Theorem htmlToMdx_deterministic (doc : document) (options : ConversionOptions)
        (now1 now2 : jsstring) :
  now1 = now2 \/ default_false (includeMetadata options) = false ->
  htmlToMdx doc options now1 = htmlToMdx doc options now2.
Proof.
  intros [-> | Hmeta]; [reflexivity |].
  unfold htmlToMdx. rewrite Hmeta. reflexivity.
Qed.

Lemma htmlToMdx_deterministic_witness :
  (lit "2024-01-01T00:00:00.000Z" = lit "2025-06-30T12:00:00.000Z"
   \/ default_false (includeMetadata no_options) = false)
  /\ htmlToMdx (page [Element (lit "p") [] [Text (lit "Hello")]]) no_options
       (lit "2024-01-01T00:00:00.000Z")
     = htmlToMdx (page [Element (lit "p") [] [Text (lit "Hello")]]) no_options
         (lit "2025-06-30T12:00:00.000Z").
Proof.
  split.
  - right. reflexivity.
  - apply htmlToMdx_deterministic. right. reflexivity.
Defined.

(** ** Script, style and noscript subtrees *)

Lemma remove_all_Element tagName attributes childNodes :
  remove_all removed (Element tagName attributes childNodes)
  = Element tagName attributes (flat_map detach childNodes).
Proof. reflexivity. Qed.

Lemma detach_variants (l l' : list node) :
  Forall2 (fun a b => detach a = detach b) l l' ->
  flat_map detach l = flat_map detach l'.
Proof.
  induction 1 as [| a b l l' Hab _ IH]; simpl; [reflexivity |].
  now rewrite Hab, IH.
Qed.

Lemma script_variant_detach (a : node) :
  forall b, script_variant a b -> detach a = detach b.
Proof.
  induction a as [data | data | tagName attributes childNodes IH]
    using node_tree_ind; intros b Hab; inversion Hab; subst; try reflexivity.
  - unfold detach, removed. simpl. now rewrite H3.
  - unfold detach at 1 2. unfold has_tag. rewrite !remove_all_Element.
    replace (flat_map detach childNodes') with (flat_map detach childNodes);
      [reflexivity |].
    apply detach_variants.
    clear Hab. induction H3 as [| x y l l' Hxy _ IHl]; constructor.
    + inversion IH; subst. now apply H1.
    + inversion IH; subst. now apply IHl.
Qed.

(** C6: the output does not depend on what is below a [script], [style]
    or [noscript] element, at any depth: two documents that differ only in
    the descendants of such elements (replaced by anything, or removed)
    convert to the same result. *)
Theorem htmlToMdx_ignores_scripts (doc doc' : document)
        (options : ConversionOptions) (now : jsstring) :
  Forall2 script_variant doc doc' ->
  htmlToMdx doc options now = htmlToMdx doc' options now.
Proof.
  intros Hvariant.
  assert (Hsame : doc_remove_all ["script"; "style"; "noscript"] doc
                  = doc_remove_all ["script"; "style"; "noscript"] doc').
  { apply (detach_variants doc doc').
    eapply Forall2_impl; [| exact Hvariant].
    intros a b. apply script_variant_detach. }
  unfold htmlToMdx. rewrite Hsame. reflexivity.
Qed.

Lemma htmlToMdx_ignores_scripts_witness :
  let doc :=
    page [Element (lit "div") []
            [Element (lit "script") [] [Text (lit "alert(1)")];
             Element (lit "p") [] [Text (lit "Hello")]]] in
  let doc' :=
    page [Element (lit "div") []
            [Element (lit "script") [] [];
             Element (lit "p") [] [Text (lit "Hello")]]] in
  Forall2 script_variant doc doc'
  /\ htmlToMdx doc no_options [] = htmlToMdx doc' no_options [].
Proof.
  assert (H : Forall2 script_variant
                (page [Element (lit "div") []
                         [Element (lit "script") [] [Text (lit "alert(1)")];
                          Element (lit "p") [] [Text (lit "Hello")]]])
                (page [Element (lit "div") []
                         [Element (lit "script") [] [];
                          Element (lit "p") [] [Text (lit "Hello")]]])).
  { repeat first [ apply Forall2_nil
                 | apply Forall2_cons
                 | apply variant_inside; reflexivity
                 | apply variant_same
                 | apply variant_below ]. }
  split; [exact H | apply htmlToMdx_ignores_scripts; exact H].
Defined.

(** ** Tables *)

Lemma map_const_repeat {A B} (b : B) (l : list A) :
  map (fun _ => b) l = repeat b (length l).
Proof. induction l as [| a l IH]; simpl; [reflexivity | now rewrite IH]. Qed.

(** One round of the loop over the rows adds the line of the row. *)
Lemma convertTable_rows_later rows :
  forall rowIndex result,
    rowIndex <> 0 ->
    convertTable_rows rows rowIndex result
    = result ++ concat (map row_line rows).
Proof.
  induction rows as [| row rest IH]; intros rowIndex result Hindex;
    cbn [convertTable_rows map concat].
  - now rewrite app_nil_r.
  - apply N.eqb_neq in Hindex. rewrite Hindex. cbn [andb].
    rewrite IH by lia.
    unfold row_line, row_cells, cell_text. now rewrite <- !app_assoc.
Qed.

Lemma first_match_among (p q : node -> bool) (l : list node) :
  (forall x, p x = true -> q x = true) ->
  match hd_error (filter p l) with Some _ => true | None => false end
  = existsb p (filter q l).
Proof.
  intros Hpq. induction l as [| x l IH]; simpl; [reflexivity |].
  destruct (p x) eqn:Hp.
  - rewrite (Hpq x Hp). simpl. now rewrite Hp.
  - destruct (q x); simpl; [rewrite Hp |]; exact IH.
Qed.

(** A [th] below the row is one of its cells. *)
Lemma th_among_cells (row : node) :
  match querySelector ["th"] row with Some _ => true | None => false end
  = existsb (has_tag ["th"]) (row_cells row).
Proof.
  apply first_match_among.
  intros [data | tagName attributes childNodes | data]; try discriminate.
  unfold has_tag. intros H.
  apply case_In in H as (l & [<- | []] & ->). reflexivity.
Qed.

(** The shape of a table: nothing without [tr] rows; otherwise a newline,
    the line of the first row, the separator line exactly when the first
    row has a [th] cell, the lines of the other rows and a newline. *)
Lemma convertTable_shape (tableElement : node) (options : ConversionOptions) :
  match querySelectorAll ["tr"] tableElement with
  | [] => convertTable tableElement options = []
  | first :: others =>
      convertTable tableElement options
      = [LF]
          ++ row_line first
          ++ (if existsb (has_tag ["th"]) (row_cells first)
              then separator_line (length (row_cells first))
              else [])
          ++ concat (map row_line others)
          ++ [LF]
  end.
Proof.
  unfold convertTable.
  destruct (querySelectorAll ["tr"] tableElement) as [| first others];
    [reflexivity |].
  cbn [length Nat.eqb convertTable_rows].
  rewrite th_among_cells, N.eqb_refl, andb_true_l.
  rewrite map_const_repeat, length_map.
  fold (row_cells first).
  destruct (existsb (has_tag ["th"]) (row_cells first));
    rewrite convertTable_rows_later by (simpl; lia);
    unfold row_line, separator_line, cell_text;
    rewrite <- ?app_assoc; reflexivity.
Qed.

(** ** The end of the output *)

(** C2: the output never ends with a newline: the final [trim] strips the
    newline that the step before it puts at the end.  (The specification
    asks for exactly one trailing newline.) *)
Theorem htmlToMdx_no_trailing_newline (doc : document)
        (options : ConversionOptions) (now : jsstring) :
  exists s, htmlToMdx doc options now = Ok s
            /\ forall front, s <> front ++ [LF].
Proof.
  destruct (htmlToMdx_cleaned doc options now) as [mdx H].
  exists (cleanupMdx mdx). split; [exact H |].
  intros front Hend. unfold cleanupMdx in Hend.
  apply trim_last in Hend. discriminate.
Qed.

Example paragraph_without_final_newline :
  htmlToMdx (page [Element (lit "p") [] [Text (lit "Hi")]]) no_options []
  = Ok (lit "Hi").
Proof. reflexivity. Qed.

(** ** Runs of newlines *)

Lemma newline_run_short (k : nat) (rest : jsstring) :
  (k <= 2)%nat ->
  newline_run_from 3 0 (repeat LF k ++ rest)
  = newline_run_from 3 k rest.
Proof.
  intros Hk.
  destruct k as [| [| [| k]]]; [reflexivity | reflexivity | reflexivity | lia].
Qed.

Lemma newline_run_restart (seen : nat) c (rest : jsstring) :
  (seen <= 2)%nat -> is_LF c = false ->
  newline_run_from 3 seen (c :: rest) = newline_run_from 3 0 rest.
Proof.
  unfold is_LF. intros Hseen Hc. cbn [newline_run_from]. rewrite Hc.
  destruct seen as [| [| [| seen]]]; try lia; reflexivity.
Qed.

Lemma all_LF_repeat (run : jsstring) :
  Forall (fun c => is_LF c = true) run -> run = repeat LF (length run).
Proof.
  induction 1 as [| c run Hc _ IH]; [reflexivity |].
  apply N.eqb_eq in Hc. cbn [length repeat]. now rewrite Hc, <- IH.
Qed.

Lemma collapsed_run_short (run : jsstring) :
  Forall (fun c => is_LF c = true) run ->
  exists k, (k <= 2)%nat /\ at_most_two run = repeat LF k.
Proof.
  intros Hrun. unfold at_most_two.
  destruct (3 <=? length run)%nat eqn:Hlen.
  - now exists 2%nat.
  - exists (length run). apply Nat.leb_gt in Hlen.
    split; [lia | now apply all_LF_repeat].
Qed.

(** The first pass on its own leaves no three newlines in a row. *)
Lemma collapse_newlines_scan (s : jsstring) :
  forall acc,
    Forall (fun c => is_LF c = true) acc ->
    newline_run_from 3 0 (scan is_LF (fun run _ => at_most_two run) acc s)
    = false.
Proof.
  induction s as [| c rest IH]; intros acc Hacc; cbn [scan].
  - destruct acc as [| a acc]; [reflexivity |]. cbn [flush]. cbv beta.
    destruct (collapsed_run_short (rev (a :: acc))) as (k & Hk & ->).
    { now apply Forall_rev. }
    rewrite <- (app_nil_r (repeat LF k)), newline_run_short by exact Hk.
    destruct k as [| [| [| k]]]; try lia; reflexivity.
  - destruct (is_LF c) eqn:Hc.
    + apply IH. now constructor.
    + destruct acc as [| a acc]; cbn [flush app]; cbv beta.
      * rewrite newline_run_restart by (lia || exact Hc). now apply IH.
      * destruct (collapsed_run_short (rev (a :: acc))) as (k & Hk & ->).
        { now apply Forall_rev. }
        rewrite newline_run_short by exact Hk.
        rewrite newline_run_restart by (exact Hk || exact Hc). now apply IH.
Qed.

Lemma collapse_newlines_no_long_run (s : jsstring) :
  newline_run 3 (collapse_newlines s) = false.
Proof. now apply collapse_newlines_scan. Qed.

(** C4: a text with blank lines that hold a space comes out with three
    newlines in a row: the run is formed when the spaces are stripped,
    after the pass that shortens runs of newlines. *)
Theorem htmlToMdx_leaves_three_newlines :
  let text := lit "a" ++ [LF] ++ lit " " ++ [LF] ++ lit " " ++ [LF] ++ lit "b" in
  let output := lit "a" ++ [LF; LF; LF] ++ lit "b" in
  htmlToMdx (page [Text text]) no_options [] = Ok output
  /\ newline_run 3 output = true.
Proof. split; reflexivity. Qed.

(** C5: the post-processor is not idempotent on the markup assembled for
    that text: its output has three newlines in a row, which a second
    application shortens to two. *)
Theorem cleanupMdx_not_idempotent :
  let mdx :=
    lit "a" ++ [LF] ++ lit " " ++ [LF] ++ lit " " ++ [LF] ++ lit "b " in
  convertElement
    (Element (lit "body") []
       [Text (lit "a" ++ [LF] ++ lit " " ++ [LF] ++ lit " " ++ [LF] ++ lit "b")])
    0 no_options = Ok mdx
  /\ cleanupMdx mdx = lit "a" ++ [LF; LF; LF] ++ lit "b"
  /\ cleanupMdx (cleanupMdx mdx) = lit "a" ++ [LF; LF] ++ lit "b"
  /\ cleanupMdx (cleanupMdx mdx) <> cleanupMdx mdx.
Proof. repeat split; try reflexivity. vm_compute. discriminate. Qed.

(** ** Flattened text *)

Lemma collapse_scan (s : jsstring) :
  (forall acc, acc <> [] ->
     exists t, scan is_space (fun _ _ => [SP]) acc s = SP :: t
               /\ single_spaced true t = true)
  /\ single_spaced false (scan is_space (fun _ _ => [SP]) [] s) = true.
Proof.
  induction s as [| c rest [IHrun IHfresh]]; split.
  - intros [| a acc] Hacc; [contradiction |]. now exists [].
  - reflexivity.
  - intros acc Hacc. cbn [scan].
    destruct (is_space c) eqn:Hc.
    + now apply IHrun.
    + destruct acc as [| a acc]; [contradiction |].
      exists (c :: scan is_space (fun _ _ => [SP]) [] rest).
      split; [reflexivity |].
      cbn [single_spaced]. now rewrite Hc.
  - cbn [scan]. destruct (is_space c) eqn:Hc.
    + destruct (IHrun [c]) as (t & -> & Ht); [discriminate |].
      cbn [single_spaced]. now rewrite Ht.
    + cbn [flush app single_spaced]. now rewrite Hc.
Qed.

Lemma single_spaced_dropWhile (t : jsstring) :
  single_spaced false t = true ->
  single_spaced true (dropWhile is_space t) = true.
Proof.
  destruct t as [| c rest]; [reflexivity |].
  cbn [single_spaced dropWhile].
  destruct (is_space c) eqn:Hc.
  - intros H. apply andb_true_iff in H as [_ H].
    destruct rest as [| d rest]; [reflexivity |].
    cbn [dropWhile]. destruct (is_space d) eqn:Hd; [| exact H].
    cbn [single_spaced] in H. rewrite Hd in H.
    now rewrite andb_false_r in H.
  - cbn [single_spaced]. now rewrite Hc.
Qed.

Lemma single_spaced_prefix (x y : jsstring) :
  forall b, single_spaced b (x ++ y) = true -> single_spaced b x = true.
Proof.
  induction x as [| c x IH]; intros b; [reflexivity |].
  cbn [app single_spaced].
  destruct (is_space c).
  - intros H. apply andb_true_iff in H as [-> H]. now rewrite (IH _ H).
  - apply IH.
Qed.

Lemma dropWhile_suffix (p : char -> bool) (s : jsstring) :
  exists front, s = front ++ dropWhile p s.
Proof.
  induction s as [| c s [front IH]]; [now exists [] |].
  cbn [dropWhile]. destruct (p c).
  - exists (c :: front). cbn [app]. now rewrite <- IH.
  - now exists [].
Qed.

Lemma dropWhileEnd_prefix (p : char -> bool) (s : jsstring) :
  exists back, s = dropWhileEnd p s ++ back.
Proof.
  unfold dropWhileEnd.
  destruct (dropWhile_suffix p (rev s)) as [front H].
  exists (rev front).
  rewrite <- rev_app_distr, <- H. now rewrite rev_involutive.
Qed.

Lemma single_spaced_only_spaces (t : jsstring) :
  forall b, single_spaced b t = true ->
            forall c, In c t -> is_space c = true -> c = SP.
Proof.
  induction t as [| d t IH]; intros b Ht c Hin Hc; [contradiction |].
  cbn [single_spaced] in Ht.
  destruct Hin as [-> | Hin].
  - rewrite Hc in Ht.
    apply andb_true_iff in Ht as [Ht _]. apply andb_true_iff in Ht as [Ht _].
    now apply N.eqb_eq.
  - destruct (is_space d).
    + apply andb_true_iff in Ht as [_ Ht]. now apply (IH true).
    + now apply (IH false).
Qed.

Lemma single_spaced_no_double (front back : jsstring) :
  forall b, single_spaced b (front ++ [SP; SP] ++ back) = false.
Proof.
  induction front as [| c front IH]; intros b.
  - cbn. now rewrite andb_false_r.
  - cbn [app single_spaced]. destruct (is_space c).
    + cbn [app] in IH. rewrite IH. apply andb_false_r.
    + apply IH.
Qed.

Lemma visible_scan (s : jsstring) :
  forall acc, visible (scan is_space (fun _ _ => [SP]) acc s) = visible s.
Proof.
  unfold visible.
  induction s as [| c rest IH]; intros acc; cbn [scan].
  - now destruct acc.
  - destruct (is_space c) eqn:Hc.
    + rewrite IH. cbn [filter]. now rewrite Hc.
    + rewrite filter_app. cbn [filter]. rewrite Hc, IH. cbn [negb].
      now destruct acc.
Qed.

Lemma visible_dropWhile (s : jsstring) : visible (dropWhile is_space s) = visible s.
Proof.
  unfold visible. induction s as [| c s IH]; [reflexivity |].
  cbn [dropWhile filter]. destruct (is_space c) eqn:Hc; [exact IH |].
  cbn [filter negb]. now rewrite Hc.
Qed.

Lemma visible_rev (s : jsstring) : visible (rev s) = rev (visible s).
Proof.
  unfold visible. induction s as [| c s IH]; [reflexivity |].
  cbn [rev filter]. rewrite filter_app, IH. cbn [filter].
  now destruct (negb (is_space c)); cbn [rev]; rewrite ?app_nil_r.
Qed.

Lemma visible_trim (s : jsstring) : visible (trim s) = visible s.
Proof.
  unfold trim, dropWhileEnd.
  rewrite visible_rev, visible_dropWhile, visible_rev, rev_involutive.
  apply visible_dropWhile.
Qed.

Lemma getTextContent_flattened (element : node) :
  single_spaces_only (getTextContent element)
  /\ visible (getTextContent element) = visible (textContent element).
Proof.
  unfold getTextContent.
  set (text := textContent element).
  assert (Hstart : single_spaced true
                     (dropWhile is_space (collapse_whitespace text)) = true).
  { apply single_spaced_dropWhile, collapse_scan. }
  assert (Htrim : single_spaced true (trim (collapse_whitespace text)) = true).
  { unfold trim.
    destruct (dropWhileEnd_prefix is_space
                (dropWhile is_space (collapse_whitespace text))) as [back H].
    rewrite H in Hstart. now apply single_spaced_prefix in Hstart. }
  split; [repeat split |].
  - now apply (single_spaced_only_spaces _ true).
  - intros front back H. rewrite H in Htrim.
    now rewrite single_spaced_no_double in Htrim.
  - intros c rest H. rewrite H in Htrim. cbn [single_spaced] in Htrim.
    destruct (is_space c); [| reflexivity].
    now rewrite andb_false_r in Htrim.
  - intros front c. apply trim_last.
  - rewrite visible_trim. apply visible_scan.
Qed.

(** C1, as the code has it: a [pre] element becomes a fenced block,
    newline, fence, newline, text, newline, fence, two newlines, around
    its flattened text: the text of the element with every run of
    whitespace (newlines included) collapsed to one space and trimmed, all
    other characters kept. *)
Theorem pre_is_fenced_flattened_text attributes childNodes depth options :
  let element := Element (lit "pre") attributes childNodes in
  convertElement element depth options = Ok (fenced (getTextContent element))
  /\ single_spaces_only (getTextContent element)
  /\ visible (getTextContent element) = visible (textContent element).
Proof.
  intros element. split; [reflexivity | apply getTextContent_flattened].
Qed.

(** C1 as stated fails: the text of a [pre] with a newline and an indented
    line comes out on one line, not verbatim. *)
Lemma pre_text_is_not_verbatim :
  let element :=
    Element (lit "pre") [] [Text (lit "a" ++ [LF] ++ lit "  b")] in
  convertElement element 0 no_options = Ok (fenced (lit "a b"))
  /\ convertElement element 0 no_options <> Ok (fenced (textContent element)).
Proof. split; [reflexivity | vm_compute; discriminate]. Qed.

(** ** The post-processor applied twice *)

(** *** Texts each pass leaves as they are *)

Lemma collapse_newlines_fixed (s : jsstring) :
  forall acc,
    Forall (fun c => is_LF c = true) acc ->
    newline_run_from 3 (length acc) s = false ->
    scan is_LF (fun run _ => at_most_two run) acc s = rev acc ++ s.
Proof.
  assert (Hflush : forall acc rest,
             (3 <=? length acc)%nat = false ->
             flush (fun run _ => at_most_two run) acc rest = rev acc).
  { intros [| a acc] rest Hlen; [reflexivity |].
    cbn [flush]. unfold at_most_two. now rewrite length_rev, Hlen. }
  induction s as [| c rest IH]; intros acc Hacc Hrun;
    cbn [scan]; cbn [newline_run_from] in Hrun;
    apply orb_false_elim in Hrun as [Hlen Hrun].
  - rewrite Hflush by exact Hlen. now rewrite app_nil_r.
  - unfold is_LF at 1. destruct (c =? LF) eqn:Hc.
    + rewrite IH; [| now constructor | exact Hrun].
      cbn [rev]. now rewrite <- app_assoc.
    + rewrite Hflush by exact Hlen. now rewrite (IH [] (Forall_nil _) Hrun).
Qed.

Lemma space_headers_fixed (s : jsstring) :
  forall acc,
    Forall (fun c => is_LF c = true) acc ->
    headers_spaced_from (length acc) s = true ->
    newline_run_from 3 (length acc) s = false ->
    scan is_LF two_before_hash acc s = rev acc ++ s.
Proof.
  induction s as [| c rest IH]; intros acc Hacc Hspaced Hrun;
    cbn [scan]; cbn [newline_run_from] in Hrun;
    apply orb_false_elim in Hrun as [Hlen Hrun].
  - destruct acc; [reflexivity |]. cbn [flush two_before_hash].
    now rewrite app_nil_r.
  - cbn [headers_spaced_from] in Hspaced.
    unfold is_LF at 1. destruct (c =? LF) eqn:Hc.
    + rewrite IH; [| now constructor | exact Hspaced | exact Hrun].
      cbn [rev]. now rewrite <- app_assoc.
    + apply andb_true_iff in Hspaced as [Hhash Hspaced].
      rewrite (IH [] (Forall_nil _) Hspaced Hrun).
      destruct acc as [| a acc]; [reflexivity |].
      cbn [flush two_before_hash].
      destruct (c =? HASH); [| reflexivity].
      cbn [negb orb] in Hhash.
      apply Nat.leb_gt in Hlen.
      assert (Hlength : length (rev (a :: acc)) = 2%nat).
      { rewrite length_rev.
        destruct (length (a :: acc)) as [| [| [| n]]] eqn:Hn;
          cbn in Hn, Hhash; try discriminate; try reflexivity; lia. }
      rewrite (all_LF_repeat (rev (a :: acc))) by now apply Forall_rev.
      now rewrite Hlength.
Qed.

Lemma blank_not_line_terminator c : is_blank c = true -> is_line_terminator c = false.
Proof.
  unfold is_blank. intros H.
  apply orb_true_iff in H as [H | H]; apply N.eqb_eq in H; now subst.
Qed.

Lemma line_ends_clean_suffix (x y : jsstring) :
  line_ends_clean (x ++ y) = true -> line_ends_clean y = true.
Proof.
  induction x as [| c x IH]; [easy |].
  cbn [app line_ends_clean]. intros H.
  apply andb_true_iff in H as [_ H]. now apply IH.
Qed.

Lemma line_ends_clean_after_blank (x : jsstring) b (y : jsstring) :
  line_ends_clean (x ++ b :: y) = true -> is_blank b = true ->
  match y with [] => False | c :: _ => is_line_terminator c = false end.
Proof.
  intros H Hb. apply line_ends_clean_suffix in H.
  cbn [line_ends_clean] in H. rewrite Hb in H. cbn [negb orb] in H.
  apply andb_true_iff in H as [H _].
  destruct y as [| c y]; [discriminate |].
  now apply negb_true_iff in H.
Qed.

Lemma strip_line_ends_fixed (s : jsstring) :
  forall acc,
    Forall (fun c => is_blank c = true) acc ->
    line_ends_clean (rev acc ++ s) = true ->
    scan is_blank none_at_line_end acc s = rev acc ++ s.
Proof.
  induction s as [| c rest IH]; intros acc Hacc Hclean; cbn [scan].
  - destruct acc as [| a acc]; [reflexivity |].
    cbn [rev] in Hclean. rewrite <- app_assoc in Hclean.
    apply line_ends_clean_after_blank in Hclean; [contradiction |].
    now inversion Hacc.
  - destruct (is_blank c) eqn:Hc.
    + rewrite IH; [| now constructor |];
        cbn [rev]; now rewrite <- app_assoc.
    + rewrite (IH []);
        [| apply Forall_nil
         | apply (line_ends_clean_suffix (rev acc ++ [c]));
           now rewrite <- app_assoc ].
      destruct acc as [| a acc]; [reflexivity |].
      cbn [flush none_at_line_end].
      cbn [rev] in Hclean. rewrite <- app_assoc in Hclean.
      apply line_ends_clean_after_blank in Hclean; [| now inversion Hacc].
      now rewrite Hclean.
Qed.

(** *** What the passes establish *)

Lemma line_ends_clean_blank_run (run : jsstring) c (rest : jsstring) :
  Forall (fun b => is_blank b = true) run ->
  is_line_terminator c = false ->
  line_ends_clean (run ++ c :: rest) = line_ends_clean (c :: rest).
Proof.
  intros Hrun Hc. induction Hrun as [| b run Hb Hrun IH]; [reflexivity |].
  cbn [app]. change (line_ends_clean (b :: run ++ c :: rest))
    with ((negb (is_blank b)
           || match run ++ c :: rest with
              | [] => false
              | d :: _ => negb (is_line_terminator d)
              end) && line_ends_clean (run ++ c :: rest)).
  rewrite IH.
  destruct Hrun as [| b' run Hb' Hrun]; cbn [app].
  - now rewrite Hc, orb_true_r.
  - now rewrite (blank_not_line_terminator b' Hb'), orb_true_r.
Qed.

Lemma strip_line_ends_scan (s : jsstring) :
  forall acc,
    Forall (fun c => is_blank c = true) acc ->
    line_ends_clean (scan is_blank none_at_line_end acc s) = true.
Proof.
  induction s as [| c rest IH]; intros acc Hacc; cbn [scan].
  - now destruct acc.
  - destruct (is_blank c) eqn:Hc.
    + apply IH. now constructor.
    + assert (Htail : line_ends_clean
                        (c :: scan is_blank none_at_line_end [] rest) = true).
      { cbn [line_ends_clean]. rewrite Hc. cbn [negb orb andb].
        apply IH. constructor. }
      destruct acc as [| a acc]; [exact Htail |].
      cbn [flush none_at_line_end].
      destruct (is_line_terminator c) eqn:Hlt; [exact Htail |].
      rewrite line_ends_clean_blank_run; [exact Htail | | exact Hlt].
      now apply Forall_rev.
Qed.

Lemma headers_spaced_newlines (run rest : jsstring) :
  Forall (fun c => is_LF c = true) run ->
  forall seen,
    headers_spaced_from seen (run ++ rest)
    = headers_spaced_from (length run + seen) rest.
Proof.
  induction 1 as [| c run Hc _ IH]; intros seen; [reflexivity |].
  cbn [app headers_spaced_from length]. unfold is_LF in Hc. rewrite Hc.
  rewrite IH. f_equal. lia.
Qed.

Lemma space_headers_scan (s : jsstring) :
  forall acc,
    Forall (fun c => is_LF c = true) acc ->
    headers_spaced_from 0 (scan is_LF two_before_hash acc s) = true.
Proof.
  induction s as [| c rest IH]; intros acc Hacc; cbn [scan].
  - destruct acc as [| a acc]; [reflexivity |].
    cbn [flush two_before_hash].
    rewrite <- (app_nil_r (rev (a :: acc))).
    now rewrite headers_spaced_newlines by now apply Forall_rev.
  - destruct (is_LF c) eqn:Hc.
    + apply IH. now constructor.
    + unfold is_LF in Hc.
      destruct acc as [| a acc]; cbn [flush app two_before_hash].
      * cbn [headers_spaced_from]. rewrite Hc.
        rewrite IH by constructor. cbn. now rewrite orb_true_r.
      * destruct (c =? HASH) eqn:Hhash.
        -- cbn [app headers_spaced_from]. rewrite Hc, Hhash.
           cbn. apply IH. constructor.
        -- rewrite headers_spaced_newlines by now apply Forall_rev.
           cbn [headers_spaced_from]. rewrite Hc, Hhash.
           cbn [negb orb andb]. apply IH. constructor.
Qed.

Lemma blank_is_plain c :
  is_blank c = true -> (c =? LF) = false /\ (c =? HASH) = false.
Proof.
  unfold is_blank. intros H.
  apply orb_true_iff in H as [H | H]; apply N.eqb_eq in H; now subst.
Qed.

Lemma headers_spaced_blank_run (run rest : jsstring) :
  Forall (fun b => is_blank b = true) run -> run <> [] ->
  forall seen,
    headers_spaced_from seen (run ++ rest) = headers_spaced_from 0 rest.
Proof.
  induction 1 as [| b run Hb Hrun IH]; intros Hne seen; [contradiction |].
  destruct (blank_is_plain b Hb) as [Hlf Hhash].
  cbn [app headers_spaced_from]. rewrite Hlf, Hhash. cbn [negb orb andb].
  destruct run as [| b' run]; [reflexivity |].
  now apply IH.
Qed.

(** Stripping the line ends keeps the headers spaced: [seen_in] newlines
    stand before [s] in the input, [seen_out] in the output before the
    pending blanks. *)
Lemma strip_line_ends_headers (s : jsstring) :
  forall acc seen_in seen_out,
    Forall (fun c => is_blank c = true) acc ->
    (acc = [] -> (seen_out = 0 -> seen_in = 0) /\ (seen_out = 1 -> seen_in = 1))%nat ->
    (acc <> [] -> seen_in = 0%nat) ->
    headers_spaced_from seen_in s = true ->
    headers_spaced_from seen_out (scan is_blank none_at_line_end acc s) = true.
Proof.
  induction s as [| c rest IH]; intros acc seen_in seen_out Hacc Hnil Hpending Hin;
    cbn [scan].
  - now destruct acc.
  - cbn [headers_spaced_from] in Hin.
    destruct (is_blank c) eqn:Hc.
    + destruct (blank_is_plain c Hc) as [Hlf Hhash].
      rewrite Hlf, Hhash in Hin. cbn [negb orb andb] in Hin.
      apply (IH (c :: acc) 0%nat seen_out);
        [now constructor | discriminate | reflexivity | exact Hin].
    + destruct (c =? LF) eqn:Hlf.
      * (* a newline: pending blanks are dropped *)
        assert (Hflush : flush none_at_line_end acc (c :: rest) = []).
        { destruct acc as [| a acc]; [reflexivity |].
          cbn [flush none_at_line_end].
          apply N.eqb_eq in Hlf. now subst c. }
        rewrite Hflush. cbn [app headers_spaced_from]. rewrite Hlf.
        destruct acc as [| a acc].
        -- apply (IH [] (S seen_in) (S seen_out));
             [constructor | | congruence | exact Hin].
           intros _. destruct (Hnil eq_refl) as [H0 H1]. split; lia.
        -- rewrite (Hpending ltac:(discriminate)) in Hin.
           apply (IH [] 1%nat (S seen_out));
             [constructor | | congruence | exact Hin].
           intros _. split; lia.
      * apply andb_true_iff in Hin as [Hhash Hin].
        assert (Htail : forall seen_out',
                   (c =? HASH) = false \/ seen_out' <> 1%nat ->
                   headers_spaced_from seen_out'
                     (c :: scan is_blank none_at_line_end [] rest) = true).
        { intros seen_out' Hok. cbn [headers_spaced_from]. rewrite Hlf.
          rewrite (IH [] 0%nat 0%nat);
            [| constructor | now split | congruence | exact Hin].
          rewrite andb_true_r.
          destruct Hok as [-> | Hok]; [reflexivity |].
          apply Nat.eqb_neq in Hok. rewrite Hok. apply orb_true_r. }
        destruct acc as [| a acc]; cbn [flush app].
        -- apply Htail.
           destruct (c =? HASH); [right | now left].
           cbn [negb orb] in Hhash. apply negb_true_iff, Nat.eqb_neq in Hhash.
           destruct (Hnil eq_refl) as [_ H1]. intros H. now apply Hhash, H1.
        -- cbn [none_at_line_end].
           destruct (is_line_terminator c) eqn:Hlt.
           ++ apply Htail. left.
              destruct (c =? HASH) eqn:Hh; [| reflexivity].
              apply N.eqb_eq in Hh. now subst c.
           ++ rewrite headers_spaced_blank_run;
                [| now apply Forall_rev
                 | cbn [rev]; now destruct (rev acc) ].
              apply Htail. now right.
Qed.

(** *** Trimming *)

Lemma dropWhile_app_all (p : char -> bool) (x y : jsstring) :
  Forall (fun c => p c = true) x -> dropWhile p (x ++ y) = dropWhile p y.
Proof.
  induction 1 as [| c x Hc _ IH]; [reflexivity |].
  cbn [app dropWhile]. now rewrite Hc.
Qed.

Lemma dropWhile_app_nonempty (p : char -> bool) (u v : jsstring) :
  dropWhile p u <> [] -> dropWhile p (u ++ v) = dropWhile p u ++ v.
Proof.
  induction u as [| c u IH]; [contradiction |].
  cbn [app dropWhile]. destruct (p c); [exact IH | reflexivity].
Qed.

Lemma dropWhile_split (p : char -> bool) (s : jsstring) :
  exists front, s = front ++ dropWhile p s /\ Forall (fun c => p c = true) front.
Proof.
  induction s as [| c s (front & Hs & Hfront)]; [now exists [] |].
  cbn [dropWhile]. destruct (p c) eqn:Hc.
  - exists (c :: front). cbn [app]. rewrite <- Hs. split; [reflexivity |].
    now constructor.
  - now exists [].
Qed.

Lemma dropWhile_keeps_last (p : char -> bool) (x : jsstring) c :
  p c = false -> exists u, dropWhile p (x ++ [c]) = u ++ [c].
Proof.
  intros Hc. induction x as [| a x [u IH]]; cbn [app dropWhile].
  - rewrite Hc. now exists [].
  - destruct (p a); [now exists u | now exists (a :: x)].
Qed.

Lemma dropWhileEnd_app_all (p : char -> bool) (x y : jsstring) :
  Forall (fun c => p c = true) y -> dropWhileEnd p (x ++ y) = dropWhileEnd p x.
Proof.
  intros Hy. unfold dropWhileEnd.
  rewrite rev_app_distr, dropWhile_app_all; [reflexivity |].
  now apply Forall_rev.
Qed.

Lemma dropWhileEnd_app_nonempty (p : char -> bool) (x y : jsstring) :
  dropWhileEnd p y <> [] -> dropWhileEnd p (x ++ y) = x ++ dropWhileEnd p y.
Proof.
  unfold dropWhileEnd. intros Hy.
  rewrite rev_app_distr, dropWhile_app_nonempty.
  - now rewrite rev_app_distr, rev_involutive.
  - intros H. apply Hy. now rewrite H.
Qed.

Lemma dropWhileEnd_split (p : char -> bool) (s : jsstring) :
  exists back, s = dropWhileEnd p s ++ back /\ Forall (fun c => p c = true) back.
Proof.
  unfold dropWhileEnd.
  destruct (dropWhile_split p (rev s)) as (front & Hs & Hfront).
  exists (rev front). split; [| now apply Forall_rev].
  rewrite <- rev_app_distr, <- Hs. now rewrite rev_involutive.
Qed.

Lemma dropWhileEnd_keeps_head (p : char -> bool) c (m : jsstring) :
  p c = false -> exists m', dropWhileEnd p (c :: m) = c :: m'.
Proof.
  intros Hc. unfold dropWhileEnd. cbn [rev].
  destruct (dropWhile_keeps_last p (rev m) c Hc) as [u ->].
  exists (rev u). now rewrite rev_app_distr.
Qed.

Lemma dropWhile_dropWhileEnd (p : char -> bool) (s : jsstring) :
  dropWhile p (dropWhileEnd p s) = dropWhileEnd p (dropWhile p s).
Proof.
  destruct (dropWhile_split p s) as (front & Hs & Hfront).
  destruct (dropWhile p s) as [| c m] eqn:Hdrop.
  - rewrite app_nil_r in Hs. subst front.
    pose proof (dropWhileEnd_app_all p [] s Hfront) as Hall.
    cbn [app] in Hall. now rewrite Hall.
  - pose proof (dropWhile_head p s c m Hdrop) as Hc.
    destruct (dropWhileEnd_keeps_head p c m Hc) as [m' Hm'].
    rewrite Hs, dropWhileEnd_app_nonempty by (rewrite Hm'; discriminate).
    rewrite Hm', dropWhile_app_all by exact Hfront.
    cbn [dropWhile]. now rewrite Hc.
Qed.

Lemma dropWhile_fixed (p : char -> bool) (s : jsstring) :
  dropWhile p (dropWhile p s) = dropWhile p s.
Proof.
  destruct (dropWhile p s) as [| c m] eqn:Hdrop; [reflexivity |].
  cbn [dropWhile]. now rewrite (dropWhile_head p s c m Hdrop).
Qed.

Lemma dropWhileEnd_fixed (p : char -> bool) (s : jsstring) :
  dropWhileEnd p (dropWhileEnd p s) = dropWhileEnd p s.
Proof.
  unfold dropWhileEnd. now rewrite rev_involutive, dropWhile_fixed.
Qed.

Lemma trim_fixed (s : jsstring) : trim (trim s) = trim s.
Proof.
  unfold trim.
  rewrite dropWhile_dropWhileEnd, dropWhile_fixed.
  apply dropWhileEnd_fixed.
Qed.

Lemma LF_is_space c : is_LF c = true -> is_space c = true.
Proof. unfold is_LF. intros H. apply N.eqb_eq in H. now subst. Qed.

Lemma blank_is_space c : is_blank c = true -> is_space c = true.
Proof.
  unfold is_blank. intros H.
  apply orb_true_iff in H as [H | H]; apply N.eqb_eq in H; now subst.
Qed.

(** The newline put at the end does not outlive the final [trim]. *)
Lemma trim_end_with_newline (s : jsstring) : trim (end_with_newline s) = trim s.
Proof.
  unfold trim, end_with_newline.
  rewrite <- !dropWhile_dropWhileEnd. f_equal.
  rewrite dropWhileEnd_app_all by (constructor; [reflexivity | constructor]).
  destruct (dropWhileEnd_split is_LF s) as (back & Hs & Hback).
  rewrite Hs at 2. symmetry. apply dropWhileEnd_app_all.
  eapply Forall_impl; [| exact Hback]. apply LF_is_space.
Qed.

Lemma line_ends_clean_prefix (r back : jsstring) :
  (forall front c, r = front ++ [c] -> is_blank c = false) ->
  line_ends_clean (r ++ back) = true -> line_ends_clean r = true.
Proof.
  induction r as [| c r IH]; intros Hlast; [reflexivity |].
  cbn [app]. intros H.
  change (line_ends_clean (c :: r ++ back))
    with ((negb (is_blank c)
           || match r ++ back with
              | [] => false
              | d :: _ => negb (is_line_terminator d)
              end) && line_ends_clean (r ++ back)) in H.
  apply andb_true_iff in H as [Hc H].
  cbn [line_ends_clean]. rewrite IH; [| | exact H].
  - rewrite andb_true_r. destruct r as [| d r]; [| exact Hc].
    now rewrite (Hlast [] c eq_refl).
  - intros front d ->. apply (Hlast (c :: front) d). reflexivity.
Qed.

Lemma line_ends_clean_trim (s : jsstring) :
  line_ends_clean s = true -> line_ends_clean (trim s) = true.
Proof.
  intros H. unfold trim.
  destruct (dropWhile_split is_space s) as (front & Hs & _).
  rewrite Hs in H. apply line_ends_clean_suffix in H.
  destruct (dropWhileEnd_split is_space (dropWhile is_space s)) as (back & Hd & _).
  rewrite Hd in H. apply line_ends_clean_prefix in H; [exact H |].
  intros u c Hu. apply dropWhileEnd_last in Hu.
  destruct (is_blank c) eqn:Hc; [| reflexivity].
  apply blank_is_space in Hc. congruence.
Qed.

Lemma headers_spaced_prefix (x y : jsstring) :
  forall seen,
    headers_spaced_from seen (x ++ y) = true -> headers_spaced_from seen x = true.
Proof.
  induction x as [| c x IH]; intros seen; [reflexivity |].
  cbn [app headers_spaced_from]. destruct (c =? LF); [apply IH |].
  intros H. apply andb_true_iff in H as [-> H]. now rewrite (IH _ H).
Qed.

Lemma headers_spaced_suffix (x y : jsstring) :
  forall seen,
    headers_spaced_from seen (x ++ y) = true ->
    exists seen', headers_spaced_from seen' y = true.
Proof.
  induction x as [| c x IH]; intros seen; [now exists seen |].
  cbn [app headers_spaced_from]. destruct (c =? LF); [apply IH |].
  intros H. apply andb_true_iff in H as [_ H]. now apply IH in H.
Qed.

Lemma headers_spaced_trim (s : jsstring) :
  headers_spaced_from 0 s = true -> headers_spaced_from 0 (trim s) = true.
Proof.
  intros H. unfold trim.
  destruct (dropWhileEnd_split is_space (dropWhile is_space s)) as (back & Hd & _).
  apply (headers_spaced_prefix _ back). rewrite <- Hd.
  destruct (dropWhile_split is_space s) as (front & Hs & _).
  rewrite Hs in H. apply headers_spaced_suffix in H as [seen H].
  destruct (dropWhile is_space s) as [| c m] eqn:Hdrop; [reflexivity |].
  apply dropWhile_head in Hdrop.
  cbn [headers_spaced_from] in *.
  destruct (c =? LF) eqn:Hlf.
  - apply N.eqb_eq in Hlf. now subst c.
  - apply andb_true_iff in H as [_ ->]. now rewrite orb_true_r.
Qed.

(** Apart from the runs of newlines it can leave, the post-processor is
    idempotent: a second application changes its output only where that
    output has three newlines in a row. *)
Lemma cleanupMdx_idempotent_unless_long_run (s : jsstring) :
  newline_run 3 (cleanupMdx s) = false ->
  cleanupMdx (cleanupMdx s) = cleanupMdx s.
Proof.
  intros Hrun.
  assert (Hclean : line_ends_clean (cleanupMdx s) = true).
  { unfold cleanupMdx. rewrite trim_end_with_newline.
    apply line_ends_clean_trim, strip_line_ends_scan. constructor. }
  assert (Hspaced : headers_spaced_from 0 (cleanupMdx s) = true).
  { unfold cleanupMdx. rewrite trim_end_with_newline.
    apply headers_spaced_trim.
    apply (strip_line_ends_headers _ [] 0%nat 0%nat);
      [constructor | now split | congruence |].
    apply space_headers_scan. constructor. }
  assert (Htrimmed : trim (cleanupMdx s) = cleanupMdx s).
  { unfold cleanupMdx. rewrite trim_end_with_newline. apply trim_fixed. }
  set (r := cleanupMdx s) in *.
  unfold cleanupMdx at 1.
  unfold collapse_newlines, space_headers, strip_line_ends, replace_runs.
  rewrite (collapse_newlines_fixed r []) by (constructor || exact Hrun).
  cbn [rev app].
  rewrite (space_headers_fixed r [])
    by (constructor || exact Hspaced || exact Hrun).
  cbn [rev app].
  rewrite (strip_line_ends_fixed r []) by (constructor || exact Hclean).
  cbn [rev app].
  now rewrite trim_end_with_newline.
Qed.

(** * Further properties of the converter *)

(** ** The post-processor and whitespace *)

Lemma visible_all_space (s : jsstring) :
  Forall (fun c => is_space c = true) s -> visible s = [].
Proof.
  unfold visible. induction 1 as [| c s Hc _ IH]; [reflexivity |].
  cbn [filter]. now rewrite Hc.
Qed.

Lemma visible_app (x y : jsstring) : visible (x ++ y) = visible x ++ visible y.
Proof. apply filter_app. Qed.

(** A scan that replaces runs of whitespace by whitespace keeps the other
    characters. *)
Lemma visible_scan_whitespace (cls : char -> bool)
      (subst : jsstring -> jsstring -> jsstring) :
  (forall c, cls c = true -> is_space c = true) ->
  (forall run rest, Forall (fun c => cls c = true) run ->
                    Forall (fun c => is_space c = true) (subst run rest)) ->
  forall s acc,
    Forall (fun c => cls c = true) acc ->
    visible (scan cls subst acc s) = visible s.
Proof.
  intros Hcls Hsubst.
  assert (Hflush : forall acc rest,
             Forall (fun c => cls c = true) acc ->
             visible (flush subst acc rest) = []).
  { intros [| a acc] rest Hacc; [reflexivity |].
    cbn [flush]. apply visible_all_space, Hsubst. now apply Forall_rev. }
  induction s as [| c rest IH]; intros acc Hacc; cbn [scan].
  - now apply Hflush.
  - destruct (cls c) eqn:Hc.
    + rewrite IH by now constructor.
      unfold visible. cbn [filter]. now rewrite (Hcls c Hc).
    + rewrite visible_app, Hflush by exact Hacc.
      unfold visible. cbn [app filter]. fold (visible rest).
      fold (visible (scan cls subst [] rest)).
      now rewrite IH by constructor.
Qed.

Lemma all_LF_all_space (s : jsstring) :
  Forall (fun c => is_LF c = true) s -> Forall (fun c => is_space c = true) s.
Proof. apply Forall_impl, LF_is_space. Qed.

Lemma visible_end_with_newline (s : jsstring) :
  visible (end_with_newline s) = visible s.
Proof.
  unfold end_with_newline.
  destruct (dropWhileEnd_split is_LF s) as (back & Hs & Hback).
  rewrite Hs at 2. rewrite !visible_app.
  rewrite (visible_all_space back) by now apply all_LF_all_space.
  reflexivity.
Qed.

Lemma visible_cleanupMdx (mdx : jsstring) :
  visible (cleanupMdx mdx) = visible mdx.
Proof.
  unfold cleanupMdx, strip_line_ends, space_headers, collapse_newlines,
    replace_runs.
  rewrite visible_trim, visible_end_with_newline.
  rewrite visible_scan_whitespace;
    [| apply blank_is_space | | constructor].
  2:{ intros run [| c rest] Hrun; cbn [none_at_line_end]; [constructor |].
      destruct (is_line_terminator c); [constructor |].
      eapply Forall_impl; [| exact Hrun]. apply blank_is_space. }
  rewrite visible_scan_whitespace;
    [| apply LF_is_space | | constructor].
  2:{ intros run [| c rest] Hrun; cbn [two_before_hash];
        [now apply all_LF_all_space |].
      destruct (c =? HASH); [| now apply all_LF_all_space].
      repeat constructor. }
  apply visible_scan_whitespace; [apply LF_is_space | | constructor].
  intros run _ Hrun. unfold at_most_two.
  destruct (3 <=? length run)%nat; [repeat constructor |].
  now apply all_LF_all_space.
Qed.

(** X1: the post-processor changes whitespace only: the characters of its
    output that are not whitespace are those of its input, in the same
    order. *)
Theorem cleanupMdx_keeps_visible_text (mdx : jsstring) :
  visible (cleanupMdx mdx) = visible mdx.
Proof. apply visible_cleanupMdx. Qed.

Lemma trim_head (s : jsstring) c rest :
  trim s = c :: rest -> is_space c = false.
Proof.
  unfold trim. rewrite <- dropWhile_dropWhileEnd. apply dropWhile_head.
Qed.

(** X2: the output of the post-processor neither starts nor ends with a
    whitespace character (so it has no leading and no trailing blank
    line). *)
Theorem cleanupMdx_is_trimmed (mdx : jsstring) :
  (forall c rest, cleanupMdx mdx = c :: rest -> is_space c = false)
  /\ (forall front c, cleanupMdx mdx = front ++ [c] -> is_space c = false).
Proof.
  split.
  - intros c rest. apply trim_head.
  - intros front c. apply trim_last.
Qed.

(** X3: no line of the post-processor's output ends with a space or a
    tab: no such character stands before a line terminator or at the end
    of the output. *)
Theorem cleanupMdx_line_ends_clean (mdx : jsstring) :
  line_ends_clean (cleanupMdx mdx) = true.
Proof.
  unfold cleanupMdx. rewrite trim_end_with_newline.
  apply line_ends_clean_trim, strip_line_ends_scan. constructor.
Qed.

(** X4: in the post-processor's output no [#] follows exactly one newline:
    a [#] at the start of a line has an empty line before it (or starts
    the output). *)
Theorem cleanupMdx_headers_spaced (mdx : jsstring) :
  headers_spaced_from 0 (cleanupMdx mdx) = true.
Proof.
  unfold cleanupMdx. rewrite trim_end_with_newline.
  apply headers_spaced_trim.
  apply (strip_line_ends_headers _ [] 0%nat 0%nat);
    [constructor | now split | congruence |].
  apply space_headers_scan. constructor.
Qed.

(** X5: the step that puts one newline at the end has no effect on the
    result: the post-processor is the three replacements followed by
    [trim]. *)
Theorem cleanupMdx_final_newline_step_is_void (mdx : jsstring) :
  cleanupMdx mdx
  = trim (strip_line_ends (space_headers (collapse_newlines mdx))).
Proof. apply trim_end_with_newline. Qed.

Lemma all_space_visible (s : jsstring) :
  visible s = [] -> Forall (fun c => is_space c = true) s.
Proof.
  unfold visible. induction s as [| c s IH]; [constructor |].
  cbn [filter]. destruct (is_space c) eqn:Hc; cbn [negb]; [| discriminate].
  intros H. constructor; [exact Hc | now apply IH].
Qed.

Lemma trim_all_space (s : jsstring) :
  Forall (fun c => is_space c = true) s -> trim s = [].
Proof.
  intros H. unfold trim.
  destruct (dropWhile_split is_space s) as (front & Hs & _).
  assert (Hdrop : dropWhile is_space s = []).
  { now rewrite <- (app_nil_r s), dropWhile_app_all. }
  now rewrite Hdrop.
Qed.

(** X6: markup without a visible character, however long, is
    post-processed to the empty string. *)
Theorem cleanupMdx_of_whitespace (mdx : jsstring) :
  Forall (fun c => is_space c = true) mdx -> cleanupMdx mdx = [].
Proof.
  intros Hspace.
  assert (Hvisible : visible (cleanupMdx mdx) = []).
  { rewrite visible_cleanupMdx. now apply visible_all_space. }
  apply all_space_visible, trim_all_space in Hvisible.
  unfold cleanupMdx in *. now rewrite trim_fixed in Hvisible.
Qed.

Lemma cleanupMdx_of_whitespace_witness :
  Forall (fun c => is_space c = true) [LF; SP; 9; LF; 160]
  /\ cleanupMdx [LF; SP; 9; LF; 160] = [].
Proof.
  assert (H : Forall (fun c => is_space c = true) [LF; SP; 9; LF; 160]).
  { repeat constructor. }
  split; [exact H | apply cleanupMdx_of_whitespace; exact H].
Defined.

(** ** The post-processor applied again *)

Lemma line_ends_clean_after_plain (x y : jsstring) :
  Forall (fun c => is_blank c = false) x ->
  line_ends_clean (x ++ y) = line_ends_clean y.
Proof.
  induction 1 as [| c x Hc _ IH]; [reflexivity |].
  cbn [app]. change (line_ends_clean (c :: x ++ y))
    with ((negb (is_blank c)
           || match x ++ y with
              | [] => false
              | d :: _ => negb (is_line_terminator d)
              end) && line_ends_clean (x ++ y)).
  now rewrite Hc, IH.
Qed.

Lemma LF_not_blank c : is_LF c = true -> is_blank c = false.
Proof. unfold is_LF. intros H. apply N.eqb_eq in H. now subst. Qed.

Lemma LF_is_line_terminator c : is_LF c = true -> is_line_terminator c = true.
Proof. unfold is_LF. intros H. apply N.eqb_eq in H. now subst. Qed.

(** A replacement of runs of newlines by newlines leaves the line ends
    clean. *)
Lemma line_ends_clean_newline_scan (subst : jsstring -> jsstring -> jsstring) :
  (forall run rest, Forall (fun c => is_LF c = true) run ->
                    Forall (fun c => is_LF c = true) (subst run rest)) ->
  forall s acc,
    Forall (fun c => is_LF c = true) acc ->
    line_ends_clean (rev acc ++ s) = true ->
    line_ends_clean (scan is_LF subst acc s) = true.
Proof.
  intros Hsubst.
  assert (Hflush : forall acc rest y,
             Forall (fun c => is_LF c = true) acc ->
             line_ends_clean (flush subst acc rest ++ y) = line_ends_clean y).
  { intros [| a acc] rest y Hacc; [reflexivity |].
    cbn [flush]. apply line_ends_clean_after_plain.
    eapply Forall_impl; [apply LF_not_blank |].
    apply Hsubst. now apply Forall_rev. }
  induction s as [| c rest IH]; intros acc Hacc Hclean; cbn [scan].
  - rewrite <- (app_nil_r (flush subst acc [])). now rewrite Hflush.
  - destruct (is_LF c) eqn:Hc.
    + apply IH; [now constructor |].
      cbn [rev]. now rewrite <- app_assoc.
    + rewrite Hflush by exact Hacc.
      apply line_ends_clean_suffix in Hclean.
      cbn [line_ends_clean] in Hclean.
      apply andb_true_iff in Hclean as [Hnext Hrest].
      cbn [line_ends_clean].
      rewrite (IH [] (Forall_nil _) Hrest), andb_true_r.
      destruct (is_blank c); [| reflexivity].
      cbn [negb orb] in *.
      destruct rest as [| d rest]; [discriminate |].
      cbn [scan].
      destruct (is_LF d) eqn:Hd; [| exact Hnext].
      now rewrite (LF_is_line_terminator d Hd) in Hnext.
Qed.

(** Spacing the headers makes no run of newlines longer than two. *)
Lemma space_headers_short_runs (s : jsstring) :
  forall acc,
    Forall (fun c => is_LF c = true) acc ->
    newline_run_from 3 (length acc) s = false ->
    newline_run_from 3 0 (scan is_LF two_before_hash acc s) = false.
Proof.
  assert (Hflush : forall acc rest,
             Forall (fun c => is_LF c = true) acc ->
             (3 <=? length acc)%nat = false ->
             exists k, (k <= 2)%nat
                       /\ flush two_before_hash acc rest = repeat LF k).
  { intros [| a acc] rest Hacc Hlen;
      [exists 0%nat; split; [lia | reflexivity] |].
    cbn [flush].
    assert (Hrun : exists k, (k <= 2)%nat /\ rev (a :: acc) = repeat LF k).
    { exists (length (rev (a :: acc))). split.
      - rewrite length_rev. apply Nat.leb_gt in Hlen. lia.
      - apply all_LF_repeat. now apply Forall_rev. }
    destruct rest as [| c rest]; cbn [two_before_hash]; [exact Hrun |].
    destruct (c =? HASH); [| exact Hrun].
    exists 2%nat. split; [lia | reflexivity]. }
  induction s as [| c rest IH]; intros acc Hacc Hrun;
    cbn [scan]; cbn [newline_run_from] in Hrun;
    apply orb_false_elim in Hrun as [Hlen Hrun].
  - destruct (Hflush acc [] Hacc Hlen) as (k & Hk & ->).
    rewrite <- (app_nil_r (repeat LF k)), newline_run_short by exact Hk.
    destruct k as [| [| [| k]]]; try lia; reflexivity.
  - unfold is_LF at 1. destruct (c =? LF) eqn:Hc.
    + apply IH; [now constructor | exact Hrun].
    + destruct (Hflush acc (c :: rest) Hacc Hlen) as (k & Hk & ->).
      rewrite newline_run_short by exact Hk.
      rewrite newline_run_restart by (exact Hk || exact Hc).
      now apply IH.
Qed.

Lemma newline_run_prefix (x y : jsstring) :
  forall seen,
    newline_run_from 3 seen (x ++ y) = false ->
    newline_run_from 3 seen x = false.
Proof.
  induction x as [| c x IH]; intros seen H.
  - destruct y; cbn [app newline_run_from] in *;
      apply orb_false_elim in H as [-> _]; reflexivity.
  - cbn [app newline_run_from] in *.
    apply orb_false_elim in H as [-> H]. cbn [orb].
    destruct (c =? LF); now apply IH.
Qed.

Lemma newline_run_fewer_seen (s : jsstring) :
  forall seen seen',
    (seen' <= seen)%nat ->
    newline_run_from 3 seen s = false ->
    newline_run_from 3 seen' s = false.
Proof.
  induction s as [| c s IH]; intros seen seen' Hle H;
    cbn [newline_run_from] in *;
    apply orb_false_elim in H as [Hlen H];
    apply Nat.leb_gt in Hlen;
    (replace (3 <=? seen')%nat with false by (symmetry; apply Nat.leb_gt; lia));
    cbn [orb]; [reflexivity |].
  destruct (c =? LF); [| exact H].
  apply (IH (S seen)); [lia | exact H].
Qed.

Lemma newline_run_suffix (x y : jsstring) :
  forall seen,
    newline_run_from 3 seen (x ++ y) = false ->
    newline_run_from 3 0 y = false.
Proof.
  induction x as [| c x IH]; intros seen H.
  - apply (newline_run_fewer_seen y seen); [lia | exact H].
  - cbn [app newline_run_from] in H.
    apply orb_false_elim in H as [_ H].
    destruct (c =? LF); now apply IH in H.
Qed.

Lemma newline_run_trim (s : jsstring) :
  newline_run 3 s = false -> newline_run 3 (trim s) = false.
Proof.
  unfold newline_run, trim. intros H.
  destruct (dropWhile_split is_space s) as (front & Hs & _).
  rewrite Hs in H. apply newline_run_suffix in H.
  destruct (dropWhileEnd_split is_space (dropWhile is_space s)) as (back & Hd & _).
  rewrite Hd in H. now apply newline_run_prefix in H.
Qed.

(** A second application leaves no three newlines in a row. *)
Lemma cleanupMdx_twice_short_runs (s : jsstring) :
  newline_run 3 (cleanupMdx (cleanupMdx s)) = false.
Proof.
  assert (Hclean : line_ends_clean (cleanupMdx s) = true).
  { unfold cleanupMdx. rewrite trim_end_with_newline.
    apply line_ends_clean_trim, strip_line_ends_scan. constructor. }
  set (r := cleanupMdx s) in *.
  unfold cleanupMdx. rewrite trim_end_with_newline.
  apply newline_run_trim.
  assert (Hcollapsed : line_ends_clean (collapse_newlines r) = true).
  { apply line_ends_clean_newline_scan; [| constructor | exact Hclean].
    intros run _ Hrun. unfold at_most_two.
    destruct (3 <=? length run)%nat; [repeat constructor | exact Hrun]. }
  assert (Hspaced : line_ends_clean (space_headers (collapse_newlines r)) = true).
  { apply line_ends_clean_newline_scan; [| constructor | exact Hcollapsed].
    intros run [| c rest] Hrun; cbn [two_before_hash]; [exact Hrun |].
    destruct (c =? HASH); [repeat constructor | exact Hrun]. }
  unfold strip_line_ends, replace_runs.
  rewrite strip_line_ends_fixed by (constructor || exact Hspaced).
  cbn [rev app].
  apply space_headers_short_runs; [constructor |].
  apply collapse_newlines_scan. constructor.
Qed.

(** X7: the post-processor is idempotent at a text exactly when its output
    there has no three newlines in a row. *)
Theorem cleanupMdx_idempotent_iff (s : jsstring) :
  cleanupMdx (cleanupMdx s) = cleanupMdx s
  <-> newline_run 3 (cleanupMdx s) = false.
Proof.
  split.
  - intros H. rewrite <- H. apply cleanupMdx_twice_short_runs.
  - apply cleanupMdx_idempotent_unless_long_run.
Qed.

(** X8: the post-processor settles with its second application: applied
    twice, it leaves no three newlines in a row, and a third application
    changes nothing. *)
Theorem cleanupMdx_settles_after_two (s : jsstring) :
  newline_run 3 (cleanupMdx (cleanupMdx s)) = false
  /\ cleanupMdx (cleanupMdx (cleanupMdx s)) = cleanupMdx (cleanupMdx s).
Proof.
  split; [apply cleanupMdx_twice_short_runs |].
  apply cleanupMdx_idempotent_unless_long_run, cleanupMdx_twice_short_runs.
Qed.

(** ** Removing script, style and noscript elements *)

Lemma remove_all_clears (n : node) :
  has_tag removed n = false ->
  Forall (fun e => has_tag removed e = false) (subtree (remove_all removed n)).
Proof.
  induction n as [data | data | tagName attributes childNodes IH]
    using node_tree_ind; intros Hn; try constructor.
  - exact Hn.
  - fold remove_all. apply Forall_flat_map, Forall_flat_map.
    eapply Forall_impl; [| exact IH].
    intros child Hchild.
    destruct (has_tag removed child) eqn:Htag; [constructor |].
    constructor; [now apply Hchild | constructor].
Qed.

(** X9: after the removal no [script], [style] or [noscript] element is
    left in the document, at any depth. *)
Theorem doc_remove_all_clears (doc : document) :
  Forall (fun e => has_tag ["script"; "style"; "noscript"] e = false)
         (flat_map subtree (doc_remove_all ["script"; "style"; "noscript"] doc)).
Proof.
  unfold doc_remove_all. apply Forall_flat_map, Forall_flat_map.
  apply Forall_forall. intros child _.
  destruct (has_tag _ child) eqn:Htag; [constructor |].
  constructor; [now apply remove_all_clears | constructor].
Qed.

Lemma remove_all_unchanged (n : node) :
  Forall (fun e => has_tag removed e = false) (subtree n) ->
  remove_all removed n = n.
Proof.
  induction n as [data | data | tagName attributes childNodes IH]
    using node_tree_ind; intros Hn; try reflexivity.
  cbn [subtree] in Hn. inversion Hn as [| ? ? _ Hbelow]; subst.
  cbn [remove_all]. f_equal.
  apply Forall_flat_map in Hbelow. clear Hn.
  induction childNodes as [| child rest IHrest]; [reflexivity |].
  inversion IH as [| ? ? Hchild Hrest]; subst.
  inversion Hbelow as [| ? ? Hsub Hbelow']; subst.
  cbn [flat_map].
  assert (Htag : has_tag removed child = false).
  { destruct child; try reflexivity. now inversion Hsub. }
  rewrite Htag, (Hchild Hsub). cbn [app]. f_equal.
  now apply IHrest.
Qed.

(** X10: the removal leaves a document without such elements exactly as
    it is. *)
Theorem doc_remove_all_unchanged (doc : document) :
  Forall (fun e => has_tag ["script"; "style"; "noscript"] e = false)
         (flat_map subtree doc) ->
  doc_remove_all ["script"; "style"; "noscript"] doc = doc.
Proof.
  change ["script"; "style"; "noscript"] with removed.
  intros Hdoc. apply Forall_flat_map in Hdoc.
  unfold doc_remove_all.
  induction Hdoc as [| child rest Hsub _ IH]; [reflexivity |].
  cbn [flat_map].
  assert (Htag : has_tag removed child = false).
  { destruct child; try reflexivity. now inversion Hsub. }
  rewrite Htag, (remove_all_unchanged child Hsub). cbn [app]. now f_equal.
Qed.

Lemma doc_remove_all_unchanged_witness :
  let doc := page [Element (lit "p") [] [Text (lit "Hello")]] in
  Forall (fun e => has_tag ["script"; "style"; "noscript"] e = false)
         (flat_map subtree doc)
  /\ doc_remove_all ["script"; "style"; "noscript"] doc = doc.
Proof.
  assert (H : Forall (fun e => has_tag ["script"; "style"; "noscript"] e = false)
                (flat_map subtree
                   (page [Element (lit "p") [] [Text (lit "Hello")]]))).
  { repeat constructor. }
  split; [exact H | apply doc_remove_all_unchanged; exact H].
Defined.

(** ** Lists *)

Lemma convertList_loop_lines childNodes :
  forall index depth options isOrdered result,
    convertList_loop convertElement childNodes index depth options isOrdered
      result
    = (lines <- append_all
                  (item_lines depth options isOrdered index
                     (filter (has_tag ["li"]) childNodes)) ;;
       Ok (result ++ lines)).
Proof.
  induction childNodes as [| item rest IH];
    intros index depth options isOrdered result;
    cbn [convertList_loop filter].
  - cbn. now rewrite app_nil_r.
  - destruct item as [data | tagName attributes itemChildren | data];
      cbn [has_tag]; try apply IH.
    destruct (case tagName ["li"]); [| apply IH].
    cbn [item_lines append_all]. unfold item_line at 1.
    unfold convertChildren, convertChildren_body.
    destruct (convertChildren_loop convertElement itemChildren (depth + 1)
                options []) as [converted | e]; cbn [bind]; [| reflexivity].
    rewrite IH.
    destruct (append_all _) as [lines | e]; cbn [bind]; [| reflexivity].
    now rewrite <- !app_assoc.
Qed.

(** X11: a list becomes a newline, one line per [li] child of the list
    element in document order and a closing newline; other children of the
    list element are skipped.  The line of an item is its prefix, [- ] or
    the 1-based position of the item among the [li] children followed by
    [. ], and the trimmed result of child aggregation on the item. *)
Theorem convertList_lines tagName attributes childNodes depth options isOrdered :
  let listElement := Element tagName attributes childNodes in
  convertList listElement depth options isOrdered
  = (lines <- append_all
                (item_lines depth options isOrdered 0 (list_items listElement)) ;;
     Ok ([LF] ++ lines ++ [LF])).
Proof.
  intros listElement. unfold convertList, convertList_body, listElement.
  rewrite convertList_loop_lines. cbn [list_items].
  destruct (append_all _) as [lines | e]; cbn [bind]; [| reflexivity].
  now rewrite <- app_assoc.
Qed.

(** ** Headings *)

Lemma flattened_has_no_newline (element : node) :
  ~ In LF (getTextContent element).
Proof.
  intros Hin.
  destruct (getTextContent_flattened element) as [(Hspaces & _) _].
  now discriminate (Hspaces LF Hin eq_refl).
Qed.

(** X12: a heading of level 1 to 6 is one line: a newline, as many [#] as
    the level, a space, the flattened text of the element, in which there
    is no newline, and two newlines. *)
Theorem heading_is_one_line (level : N) attributes childNodes depth options :
  1 <= level <= 6 ->
  let element := Element (lit "h" ++ decimal level) attributes childNodes in
  convertElement element depth options
  = Ok ([LF] ++ repeat HASH (N.to_nat level) ++ [SP]
          ++ getTextContent element ++ [LF; LF])
  /\ ~ In LF (getTextContent element).
Proof.
  intros Hlevel element. split; [| apply flattened_has_no_newline].
  assert (Hcases : level = 1 \/ level = 2 \/ level = 3
                   \/ level = 4 \/ level = 5 \/ level = 6) by lia.
  unfold element.
  destruct Hcases as [-> | [-> | [-> | [-> | [-> | ->]]]]]; reflexivity.
Qed.

Lemma heading_is_one_line_witness :
  1 <= 3 <= 6
  /\ convertElement (Element (lit "h3") [] [Text (lit "Title")]) 0 no_options
     = Ok ([LF] ++ lit "### Title" ++ [LF; LF]).
Proof.
  split; [lia |].
  exact (proj1 (heading_is_one_line 3 [] [Text (lit "Title")] 0 no_options
                  ltac:(lia))).
Defined.

(** ** Table cells *)

Lemma trim_unchanged (s : jsstring) :
  (forall c rest, s = c :: rest -> is_space c = false) ->
  (forall front c, s = front ++ [c] -> is_space c = false) ->
  trim s = s.
Proof.
  intros Hhead Hlast. unfold trim.
  assert (Hdrop : dropWhile is_space s = s).
  { destruct s as [| c rest]; [reflexivity |].
    cbn [dropWhile]. now rewrite (Hhead c rest eq_refl). }
  rewrite Hdrop. unfold dropWhileEnd.
  destruct (rev s) as [| c back] eqn:Hrev.
  - apply (f_equal (@rev char)) in Hrev. now rewrite rev_involutive in Hrev.
  - apply (f_equal (@rev char)) in Hrev. rewrite rev_involutive in Hrev.
    cbn [rev] in Hrev. cbn [dropWhile].
    rewrite (Hlast (rev back) c Hrev). now rewrite Hrev.
Qed.

Lemma escape_pipes_app (x y : jsstring) :
  escape_pipes (x ++ y) = escape_pipes x ++ escape_pipes y.
Proof. apply flat_map_app. Qed.

Lemma escape_pipes_escaped (s : jsstring) :
  forall after_backslash,
    pipes_escaped_from after_backslash (escape_pipes s) = true.
Proof.
  induction s as [| c s IH]; intros after_backslash; [reflexivity |].
  cbn [escape_pipes flat_map]. fold (escape_pipes s).
  destruct (c =? PIPE) eqn:Hc; cbn [app pipes_escaped_from].
  - rewrite IH. reflexivity.
  - now rewrite Hc, IH.
Qed.

Lemma escape_pipes_no_newline (s : jsstring) :
  ~ In LF s -> ~ In LF (escape_pipes s).
Proof.
  intros Hs Hin. apply in_flat_map in Hin as (c & Hc & Hin).
  destruct (c =? PIPE).
  - destruct Hin as [H | [H | []]]; discriminate.
  - destruct Hin as [-> | []]. now apply Hs.
Qed.

Lemma cell_text_facts (cell : node) :
  cell_text cell = escape_pipes (getTextContent cell)
  /\ ~ In LF (cell_text cell)
  /\ pipes_escaped_from false (cell_text cell) = true.
Proof.
  assert (Htrim : cell_text cell = escape_pipes (getTextContent cell)).
  { unfold cell_text.
    destruct (getTextContent_flattened cell) as [(_ & _ & Hhead & Hlast) _].
    apply trim_unchanged.
    - intros c rest Heq.
      destruct (getTextContent cell) as [| d text]; [discriminate |].
      cbn [escape_pipes flat_map] in Heq.
      destruct (d =? PIPE); injection Heq as <- _; [reflexivity |].
      now apply (Hhead d text).
    - intros front c Heq.
      destruct (rev (getTextContent cell)) as [| d back] eqn:Hrev;
        apply (f_equal (@rev char)) in Hrev; rewrite rev_involutive in Hrev.
      + rewrite Hrev in Heq. now destruct front.
      + cbn [rev] in Hrev. rewrite Hrev, escape_pipes_app in Heq.
        assert (Hone : escape_pipes [d]
                       = if d =? PIPE then [BACKSLASH; PIPE] else [d]).
        { cbn. now destruct (d =? PIPE). }
        rewrite Hone in Heq.
        destruct (d =? PIPE).
        * replace (escape_pipes (rev back) ++ [BACKSLASH; PIPE])
            with ((escape_pipes (rev back) ++ [BACKSLASH]) ++ [PIPE]) in Heq
            by now rewrite <- app_assoc.
          apply app_inj_tail in Heq as [_ <-]. reflexivity.
        * apply app_inj_tail in Heq as [_ <-]. now apply (Hlast (rev back) d). }
  rewrite Htrim. split; [reflexivity | split].
  - apply escape_pipes_no_newline, flattened_has_no_newline.
  - apply escape_pipes_escaped.
Qed.

(** X13: the text of a table cell is its flattened text with a backslash
    put before every [|] (the final [trim] changes nothing): it holds no
    newline, and every [|] in it stands right after a backslash. *)
Theorem cell_text_is_escaped (cell : node) :
  cell_text cell = escape_pipes (getTextContent cell)
  /\ ~ In LF (cell_text cell)
  /\ pipes_escaped_from false (cell_text cell) = true.
Proof. apply cell_text_facts. Qed.

Lemma join_no_newline (sep : jsstring) (parts : list jsstring) :
  ~ In LF sep -> Forall (fun part => ~ In LF part) parts ->
  ~ In LF (join sep parts).
Proof.
  intros Hsep. induction 1 as [| part rest Hpart Hrest IH]; [easy |].
  cbn [join]. destruct rest as [| next rest]; [exact Hpart |].
  intros Hin. apply in_app_or in Hin as [Hin | Hin]; [now apply Hpart |].
  apply in_app_or in Hin as [Hin | Hin]; [now apply Hsep | now apply IH].
Qed.

(** X14: a table row takes exactly one line of the output: its line ends
    with a newline and holds no other, whatever the cells contain. *)
Theorem row_line_is_one_line (row : node) :
  exists line, row_line row = line ++ [LF] /\ ~ In LF line.
Proof.
  exists (lit "| " ++ join (lit " | ") (map cell_text (row_cells row)) ++ lit " |").
  split.
  - unfold row_line. now rewrite <- !app_assoc.
  - intros Hin. apply in_app_or in Hin as [Hin | Hin].
    { cbn in Hin. destruct Hin as [H | [H | []]]; discriminate. }
    apply in_app_or in Hin as [Hin | Hin].
    + revert Hin. apply join_no_newline.
      * cbn. intros [H | [H | [H | []]]]; discriminate.
      * apply Forall_map, Forall_forall. intros cell _.
        apply cell_text_facts.
    + cbn in Hin. destruct Hin as [H | [H | []]]; discriminate.
Qed.

(** ** Quotations *)

Lemma split_on_app (sep : char) (piece rest : jsstring) :
  ~ In sep piece ->
  split_on sep (piece ++ sep :: rest) = piece :: split_on sep rest.
Proof.
  induction piece as [| c piece IH]; intros Hpiece; cbn [app split_on].
  - now rewrite N.eqb_refl.
  - destruct (c =? sep) eqn:Hc.
    + apply N.eqb_eq in Hc. subst c. exfalso. apply Hpiece. now left.
    + rewrite IH; [reflexivity |]. intros Hin. apply Hpiece. now right.
Qed.

Lemma split_on_plain (sep : char) (piece : jsstring) :
  ~ In sep piece -> split_on sep piece = [piece].
Proof.
  induction piece as [| c piece IH]; intros Hpiece; cbn [split_on];
    [reflexivity |].
  destruct (c =? sep) eqn:Hc.
  - apply N.eqb_eq in Hc. subst c. exfalso. apply Hpiece. now left.
  - rewrite IH; [reflexivity |]. intros Hin. apply Hpiece. now right.
Qed.

Lemma split_on_pieces (sep : char) (s : jsstring) :
  split_on sep s <> []
  /\ Forall (fun piece => ~ In sep piece) (split_on sep s).
Proof.
  induction s as [| c s [Hne IH]]; cbn [split_on].
  - split; [discriminate | repeat constructor; easy].
  - destruct (c =? sep) eqn:Hc.
    + split; [discriminate |]. constructor; [easy | exact IH].
    + destruct (split_on sep s) as [| piece pieces]; [contradiction |].
      split; [discriminate |].
      inversion IH as [| ? ? Hpiece Hpieces]; subst.
      constructor; [| exact Hpieces].
      intros [-> | Hin]; [| now apply Hpiece].
      now rewrite N.eqb_refl in Hc.
Qed.

Lemma split_on_join (sep : char) (pieces : list jsstring) :
  pieces <> [] ->
  Forall (fun piece => ~ In sep piece) pieces ->
  split_on sep (join [sep] pieces) = pieces.
Proof.
  intros Hne Hpieces.
  induction Hpieces as [| piece rest Hpiece Hrest IH]; [contradiction |].
  cbn [join]. destruct rest as [| next rest].
  - now apply split_on_plain.
  - cbn [app]. rewrite split_on_app by exact Hpiece.
    f_equal. apply IH. discriminate.
Qed.

(** X15: a quotation is quoted line by line: the output of a [blockquote]
    is a newline, the quoted lines and two newlines, where every line of
    the aggregated children gives one line, [> ] and the line when it has
    a visible character and [>] alone otherwise; so every line of the
    quotation starts with [>]. *)
Theorem blockquote_lines_are_quoted attributes childNodes depth options :
  let element := Element (lit "blockquote") attributes childNodes in
  exists quoteText quotedLines,
    convertChildren element depth options = Ok quoteText
    /\ convertElement element depth options
       = Ok ([LF] ++ quotedLines ++ [LF; LF])
    /\ split_on LF quotedLines
       = map (fun line =>
                if truthy (trim line) then lit "> " ++ line else lit ">")
             (split_on LF quoteText)
    /\ Forall quoted_line (split_on LF quotedLines).
Proof.
  intros element.
  destruct (proj2 (conversion_returns element) depth options) as [quoteText Hq].
  set (quote := fun line : jsstring =>
                  if truthy (trim line) then lit "> " ++ line else lit ">").
  exists quoteText, (join [LF] (map quote (split_on LF quoteText))).
  destruct (split_on_pieces LF quoteText) as [Hne Hpieces].
  assert (Hsplit : split_on LF (join [LF] (map quote (split_on LF quoteText)))
                   = map quote (split_on LF quoteText)).
  { apply split_on_join.
    - destruct (split_on LF quoteText); [contradiction | discriminate].
    - apply Forall_map. eapply Forall_impl; [| exact Hpieces].
      intros line Hline. unfold quote.
      destruct (truthy (trim line)).
      + cbn. intros [H | [H | Hin]]; [discriminate | discriminate | easy].
      + cbn. intros [H | []]. discriminate. }
  split; [exact Hq | split; [| split; [exact Hsplit |]]].
  - unfold convertChildren, convertChildren_body, element in Hq.
    unfold element. rewrite convertElement_unfold.
    change (convertElement_body convertElement
              (Element (lit "blockquote") attributes childNodes) depth options)
      with (quoteText' <-
              convertChildren_loop convertElement childNodes depth options [] ;;
            Ok ([LF] ++ join [LF] (map quote (split_on LF quoteText'))
                  ++ [LF; LF])).
    now rewrite Hq.
  - rewrite Hsplit. apply Forall_map, Forall_forall.
    intros line _. unfold quote, quoted_line.
    destruct (truthy (trim line)); eexists; reflexivity.
Qed.

(** ** Child aggregation of a sequence of children *)

Lemma append_all_app (x y : list (completion jsstring)) :
  append_all (x ++ y)
  = (a <- append_all x ;; b <- append_all y ;; Ok (a ++ b)).
Proof.
  induction x as [| piece x IH]; cbn [app append_all bind].
  - now destruct (append_all y).
  - destruct piece as [p | e]; cbn [bind]; [| reflexivity].
    rewrite IH.
    destruct (append_all x) as [a | e]; cbn [bind]; [| reflexivity].
    destruct (append_all y) as [b | e]; cbn [bind]; [| reflexivity].
    now rewrite app_assoc.
Qed.

(** X16: child aggregation goes through the children one after the other
    without looking back: the result for children [first ++ second] is the
    result for [first] followed by the result for [second]. *)
Theorem convertChildren_of_sequence tagName attributes first second depth options :
  convertChildren (Element tagName attributes (first ++ second)) depth options
  = (a <- convertChildren (Element tagName attributes first) depth options ;;
     b <- convertChildren (Element tagName attributes second) depth options ;;
     Ok (a ++ b)).
Proof.
  unfold convertChildren, convertChildren_body.
  rewrite !convertChildren_loop_pieces, map_app, append_all_app.
  cbn [app].
  destruct (append_all (map _ first)) as [a | e]; cbn [bind]; [| reflexivity].
  destruct (append_all (map _ second)) as [b | e]; cbn [bind]; reflexivity.
Qed.

(** ** Attributes *)

Lemma has_tag_strip_attributes labels (n : node) :
  has_tag labels (strip_attributes n) = has_tag labels n.
Proof. now destruct n. Qed.

Lemma descendant_text_strip_attributes (n : node) :
  descendant_text (strip_attributes n) = descendant_text n.
Proof.
  induction n as [data | data | tagName attributes childNodes IH]
    using node_tree_ind; try reflexivity.
  cbn [strip_attributes descendant_text].
  induction IH as [| child rest Hchild _ IHrest]; [reflexivity |].
  cbn [map flat_map]. now rewrite Hchild, IHrest.
Qed.

Lemma getTextContent_strip_attributes (n : node) :
  getTextContent (strip_attributes n) = getTextContent n.
Proof.
  unfold getTextContent, textContent.
  destruct n; try reflexivity.
  now rewrite descendant_text_strip_attributes.
Qed.

Lemma subtree_strip_attributes (n : node) :
  subtree (strip_attributes n) = map strip_attributes (subtree n).
Proof.
  induction n as [data | data | tagName attributes childNodes IH]
    using node_tree_ind; try reflexivity.
  cbn [strip_attributes subtree map]. f_equal.
  induction IH as [| child rest Hchild _ IHrest]; [reflexivity |].
  cbn [map flat_map]. now rewrite map_app, Hchild, IHrest.
Qed.

Lemma querySelectorAll_strip_attributes labels (n : node) :
  querySelectorAll labels (strip_attributes n)
  = map strip_attributes (querySelectorAll labels n).
Proof.
  unfold querySelectorAll.
  assert (Hdesc : descendants (strip_attributes n)
                  = map strip_attributes (descendants n)).
  { destruct n as [data | tagName attributes childNodes | data];
      try reflexivity.
    cbn [strip_attributes descendants].
    induction childNodes as [| child rest IH]; [reflexivity |].
    cbn [map flat_map]. now rewrite map_app, subtree_strip_attributes, IH. }
  rewrite Hdesc. clear Hdesc.
  induction (descendants n) as [| e l IH]; [reflexivity |].
  cbn [map filter]. rewrite has_tag_strip_attributes, IH.
  now destruct (has_tag labels e).
Qed.

Lemma convertTable_rows_strip_attributes (rows : list node) :
  forall rowIndex result,
    convertTable_rows (map strip_attributes rows) rowIndex result
    = convertTable_rows rows rowIndex result.
Proof.
  induction rows as [| row rest IH]; intros rowIndex result; [reflexivity |].
  cbn [map convertTable_rows].
  unfold querySelector.
  rewrite !querySelectorAll_strip_attributes, !map_map.
  rewrite (map_ext (fun cell => trim (escape_pipes
                                        (getTextContent (strip_attributes cell))))
                   (fun cell => trim (escape_pipes (getTextContent cell))))
    by (intros cell; now rewrite getTextContent_strip_attributes).
  rewrite IH.
  now destruct (querySelectorAll ["th"] row).
Qed.

Lemma convertTable_strip_attributes (tableElement : node) options :
  convertTable (strip_attributes tableElement) options
  = convertTable tableElement options.
Proof.
  unfold convertTable.
  rewrite querySelectorAll_strip_attributes, length_map.
  now rewrite convertTable_rows_strip_attributes.
Qed.

Lemma convertChildren_loop_strip_attributes options childNodes :
  Forall (fun c => forall d,
              convertElement (strip_attributes c) d options
              = convertElement c d options) childNodes ->
  forall depth result,
    convertChildren_loop convertElement (map strip_attributes childNodes)
      depth options result
    = convertChildren_loop convertElement childNodes depth options result.
Proof.
  induction 1 as [| child rest Hchild _ IH]; intros depth result;
    [reflexivity |].
  cbn [map convertChildren_loop].
  destruct child as [data | tagName attributes cs | data];
    cbn [strip_attributes]; try apply IH.
  specialize (Hchild (depth + 1)%Z). cbn [strip_attributes] in Hchild.
  rewrite Hchild. clear Hchild.
  destruct (convertElement _ _ _); cbn [bind]; [apply IH | reflexivity].
Qed.

Lemma convertList_loop_strip_attributes options childNodes :
  Forall (fun c => forall d,
              convertChildren (strip_attributes c) d options
              = convertChildren c d options) childNodes ->
  forall index depth isOrdered result,
    convertList_loop convertElement (map strip_attributes childNodes)
      index depth options isOrdered result
    = convertList_loop convertElement childNodes index depth options
        isOrdered result.
Proof.
  induction 1 as [| item rest Hitem _ IH];
    intros index depth isOrdered result; [reflexivity |].
  cbn [map convertList_loop].
  destruct item as [data | tagName attributes itemChildren | data];
    cbn [strip_attributes]; try apply IH.
  destruct (case tagName ["li"]); [| apply IH].
  specialize (Hitem (depth + 1)%Z).
  cbn [strip_attributes] in Hitem.
  unfold convertChildren, convertChildren_body in Hitem.
  rewrite Hitem. clear Hitem.
  destruct (convertChildren_loop convertElement itemChildren (depth + 1)%Z
              options []); cbn [bind]; [apply IH | reflexivity].
Qed.

Lemma conversion_strip_attributes options (n : node) :
  flag (preserveLinks options) = false ->
  flag (preserveImages options) = false ->
  (forall d, convertElement (strip_attributes n) d options
             = convertElement n d options)
  /\ (forall d, convertChildren (strip_attributes n) d options
                = convertChildren n d options).
Proof.
  intros Hlinks Himages.
  induction n as [data | data | tagName attributes childNodes IH]
    using node_tree_ind; try (split; reflexivity).
  assert (Hloop : forall depth result,
             convertChildren_loop convertElement
               (map strip_attributes childNodes) depth options result
             = convertChildren_loop convertElement childNodes depth options
                 result).
  { apply convertChildren_loop_strip_attributes.
    eapply Forall_impl; [| exact IH]. now intros c [Hc _]. }
  assert (Hlist : forall index depth isOrdered result,
             convertList_loop convertElement
               (map strip_attributes childNodes) index depth options
               isOrdered result
             = convertList_loop convertElement childNodes index depth options
                 isOrdered result).
  { apply convertList_loop_strip_attributes.
    eapply Forall_impl; [| exact IH]. now intros c [_ Hc]. }
  pose proof (getTextContent_strip_attributes
                (Element tagName attributes childNodes)) as Htext.
  pose proof (convertTable_strip_attributes
                (Element tagName attributes childNodes) options) as Htable.
  cbn [strip_attributes] in Htext, Htable.
  split; intros d; [| apply Hloop].
  rewrite !convertElement_unfold. cbn [strip_attributes].
  unfold convertElement_body, convertList_body.
  rewrite Hlinks, Himages, Htext, Htable, Hloop, Hlist.
  reflexivity.
Qed.

(** X17: with [preserveLinks] and [preserveImages] both off, no attribute
    of any element reaches the formatted text: an element formats to the
    same result as the same tree without any attribute. *)
Theorem attributes_unused_without_links_and_images element depth options :
  flag (preserveLinks options) = false ->
  flag (preserveImages options) = false ->
  convertElement (strip_attributes element) depth options
  = convertElement element depth options.
Proof.
  intros Hlinks Himages.
  now apply conversion_strip_attributes.
Qed.

Lemma attributes_unused_without_links_and_images_witness :
  let element :=
    Element (lit "p") []
      [Element (lit "a") [(lit "href", lit "https://x.io")] [Text (lit "Link")];
       Element (lit "img") [(lit "src", lit "u.png")] []] in
  flag (preserveLinks no_options) = false
  /\ flag (preserveImages no_options) = false
  /\ convertElement (strip_attributes element) 0 no_options
     = convertElement element 0 no_options.
Proof.
  split; [reflexivity | split; [reflexivity |]].
  apply attributes_unused_without_links_and_images; reflexivity.
Defined.

(** ** Containers around the content *)

(** [htmlToMdx] looks at the document, once the scripts are removed, only
    for its title, its description and the formatted body content. *)
Lemma htmlToMdx_congruence (doc doc' : document) options now :
  let cleaned := doc_remove_all ["script"; "style"; "noscript"] in
  let content (d : document) :=
    match body d with Some b => Some b | None => documentElement d end in
  let resolved :=
    {| preserveImages := Some (default_false (preserveImages options));
       preserveLinks := Some (default_false (preserveLinks options));
       includeMetadata := None |} in
  title (cleaned doc) = title (cleaned doc') ->
  meta_description (cleaned doc) = meta_description (cleaned doc') ->
  match content (cleaned doc) with
  | Some element => convertElement element 0 resolved
  | None => Ok []
  end
  = match content (cleaned doc') with
    | Some element => convertElement element 0 resolved
    | None => Ok []
    end ->
  htmlToMdx doc options now = htmlToMdx doc' options now.
Proof.
  intros cleaned content resolved Htitle Hmeta Hcontent.
  unfold htmlToMdx. cbv zeta.
  fold cleaned. fold (content (cleaned doc)) (content (cleaned doc')).
  fold resolved.
  now rewrite Htitle, Hmeta, Hcontent.
Qed.

Lemma doc_remove_all_page (content : list node) :
  doc_remove_all ["script"; "style"; "noscript"] (page content)
  = page (flat_map detach content).
Proof. reflexivity. Qed.

Lemma doc_querySelectorAll_page (p : node -> bool) (content : list node) :
  doc_querySelectorAll p (page content)
  = filter p [Element (lit "html") []
                [Element (lit "head") [] []; Element (lit "body") [] content];
              Element (lit "head") [] [];
              Element (lit "body") [] content]
    ++ filter p (flat_map subtree content).
Proof.
  unfold doc_querySelectorAll, page.
  cbn [flat_map subtree app].
  rewrite !app_nil_r.
  change (?a :: ?b :: ?c :: ?l) with ([a; b; c] ++ l).
  apply filter_app.
Qed.

Lemma container_is_transparent tagName attributes childNodes depth options :
  case tagName ["div"; "section"; "article"; "main"] = true ->
  convertElement (Element tagName attributes childNodes) depth options
  = convertChildren_loop convertElement childNodes depth options [].
Proof.
  intros H. apply case_In in H as (l & Hin & ->).
  destruct Hin as [<- | [<- | [<- | [<- | []]]]]; reflexivity.
Qed.

Lemma container_is_plain tagName attributes childNodes :
  case tagName ["div"; "section"; "article"; "main"] = true ->
  let element := Element tagName attributes childNodes in
  has_tag removed element = false
  /\ has_tag ["title"] element = false
  /\ is_meta_description element = false.
Proof.
  intros H. apply case_In in H as (l & Hin & ->).
  destruct Hin as [<- | [<- | [<- | [<- | []]]]]; repeat split; reflexivity.
Qed.

Lemma container_is_html tagName :
  case tagName ["div"; "section"; "article"; "main"] = true ->
  namespace_in HTMLNamespace [] [] tagName = HTMLNamespace.
Proof.
  intros H. apply case_In in H as (l & Hin & ->).
  destruct Hin as [<- | [<- | [<- | [<- | []]]]]; reflexivity.
Qed.

Lemma doc_html_elements_page (content : list node) :
  doc_html_elements (page content)
  = [Element (lit "html") []
       [Element (lit "head") [] []; Element (lit "body") [] content];
     Element (lit "head") [] [];
     Element (lit "body") [] content]
    ++ flat_map (fun child =>
                   html_elements
                     (namespace_in HTMLNamespace [] [] (tag_of child)) child)
                content.
Proof.
  unfold doc_html_elements, page.
  cbn [flat_map tag_of].
  change (namespace_in HTMLNamespace [] [] (lit "html")) with HTMLNamespace.
  cbn [html_elements flat_map tag_of app].
  change (namespace_in HTMLNamespace (lit "html") [] (lit "head"))
    with HTMLNamespace.
  change (namespace_in HTMLNamespace (lit "html") [] (lit "body"))
    with HTMLNamespace.
  cbn [html_elements flat_map app]. rewrite !app_nil_r.
  reflexivity.
Qed.

(** X18: a [div], [section], [article] or [main] element around the whole
    body content does not show in the output, whatever its attributes: the
    page converts as if the content stood in the body itself. *)
Theorem container_around_content_is_invisible
        tagName attributes (content : list node) options now :
  case tagName ["div"; "section"; "article"; "main"] = true ->
  htmlToMdx (page [Element tagName attributes content]) options now
  = htmlToMdx (page content) options now.
Proof.
  intros Hcontainer.
  destruct (container_is_plain tagName attributes content Hcontainer)
    as (Hremoved & _ & _).
  destruct (container_is_plain tagName attributes (flat_map detach content)
              Hcontainer) as (_ & Htitle & Hmeta).
  cbv zeta in *.
  assert (Hdetach : flat_map detach [Element tagName attributes content]
                    = [Element tagName attributes (flat_map detach content)]).
  { cbn [flat_map]. unfold detach at 1. now rewrite Hremoved. }
  apply htmlToMdx_congruence; rewrite !doc_remove_all_page, Hdetach.
  - unfold title. rewrite !doc_html_elements_page.
    cbn [flat_map tag_of]. rewrite (container_is_html tagName Hcontainer).
    cbn [html_elements]. rewrite app_nil_r.
    cbn [filter app]. now rewrite Htitle.
  - unfold meta_description. rewrite !doc_querySelectorAll_page.
    cbn [flat_map subtree]. rewrite app_nil_r.
    cbn [filter app]. now rewrite Hmeta.
  - change (convertElement
              (Element (lit "body") []
                 [Element tagName attributes (flat_map detach content)]) 0
              {| preserveImages := Some (default_false (preserveImages options));
                 preserveLinks := Some (default_false (preserveLinks options));
                 includeMetadata := None |}
            = convertElement
                (Element (lit "body") [] (flat_map detach content)) 0
                {| preserveImages := Some (default_false (preserveImages options));
                   preserveLinks := Some (default_false (preserveLinks options));
                   includeMetadata := None |}).
    set (resolved := {| preserveImages := _; preserveLinks := _;
                        includeMetadata := None |}).
    change (convertElement
              (Element (lit "body") []
                 [Element tagName attributes (flat_map detach content)]) 0
              resolved)
      with (converted <-
              convertElement
                (Element tagName attributes (flat_map detach content)) 1
                resolved ;;
            Ok ([] ++ converted)).
    change (convertElement
              (Element (lit "body") [] (flat_map detach content)) 0 resolved)
      with (convertChildren_loop convertElement (flat_map detach content) 0
              resolved []).
    rewrite container_is_transparent by exact Hcontainer.
    rewrite (convertChildren_loop_depth (flat_map detach content))
      with (d2 := 0%Z)
      by (apply Forall_forall; intros c _; apply depth_irrelevant).
    cbn [app]. apply bind_ret.
Qed.

Lemma container_around_content_is_invisible_witness :
  case (lit "section") ["div"; "section"; "article"; "main"] = true
  /\ htmlToMdx
       (page [Element (lit "section") [(lit "class", lit "main")]
                [Element (lit "p") [] [Text (lit "Hello")]]])
       no_options []
     = htmlToMdx (page [Element (lit "p") [] [Text (lit "Hello")]])
         no_options [].
Proof.
  split; [reflexivity |].
  apply container_around_content_is_invisible. reflexivity.
Defined.

(** ** The front matter *)

Lemma dropWhileEnd_after_prefix (p : char -> bool) (front : jsstring) c
      (rest : jsstring) :
  p c = false ->
  exists kept, dropWhileEnd p ((front ++ [c]) ++ rest) = (front ++ [c]) ++ kept.
Proof.
  intros Hc.
  destruct (dropWhileEnd_keeps_head p c rest Hc) as [kept Hkept].
  exists kept.
  rewrite <- !app_assoc. cbn [app].
  rewrite dropWhileEnd_app_nonempty by (rewrite Hkept; discriminate).
  now rewrite Hkept.
Qed.

Lemma cleanupMdx_keeps_opener (mdx rest : jsstring) :
  mdx = front_matter_opener ++ rest ->
  exists kept, cleanupMdx mdx = front_matter_opener ++ kept.
Proof.
  intros ->. unfold cleanupMdx.
  change (collapse_newlines (front_matter_opener ++ rest))
    with (front_matter_opener ++ collapse_newlines rest).
  change (space_headers (front_matter_opener ++ collapse_newlines rest))
    with (front_matter_opener ++ space_headers (collapse_newlines rest)).
  change (strip_line_ends
            (front_matter_opener ++ space_headers (collapse_newlines rest)))
    with (front_matter_opener
            ++ strip_line_ends (space_headers (collapse_newlines rest))).
  set (body := strip_line_ends (space_headers (collapse_newlines rest))).
  unfold end_with_newline, trim.
  change front_matter_opener
    with ((lit "---" ++ [LF] ++ lit "title: ") ++ [DQUOTE]).
  destruct (dropWhileEnd_after_prefix is_LF
              (lit "---" ++ [LF] ++ lit "title: ") DQUOTE body eq_refl)
    as [kept ->].
  rewrite <- (app_assoc _ kept [LF]).
  change (dropWhile is_space
            (((lit "---" ++ [LF] ++ lit "title: ") ++ [DQUOTE])
               ++ kept ++ [LF]))
    with (((lit "---" ++ [LF] ++ lit "title: ") ++ [DQUOTE]) ++ kept ++ [LF]).
  apply dropWhileEnd_after_prefix. reflexivity.
Qed.

(** X19: with [includeMetadata] set the output starts with the opening of
    the front matter: [---], a newline, [title: ] and a double quote.  The
    post-processor leaves it in place. *)
Theorem front_matter_opens_output (doc : document) options now :
  default_false (includeMetadata options) = true ->
  exists rest, htmlToMdx doc options now = Ok (front_matter_opener ++ rest).
Proof.
  intros Hmeta. unfold htmlToMdx. cbv zeta. rewrite Hmeta.
  assert (Hconverted :
            exists converted,
              match
                match body (doc_remove_all ["script"; "style"; "noscript"] doc)
                with
                | Some b => Some b
                | None =>
                    documentElement
                      (doc_remove_all ["script"; "style"; "noscript"] doc)
                end
              with
              | Some element =>
                  convertElement element 0
                    {| preserveImages :=
                         Some (default_false (preserveImages options));
                       preserveLinks :=
                         Some (default_false (preserveLinks options));
                       includeMetadata := None |}
              | None => Ok []
              end = Ok converted).
  { destruct (match body _ with Some b => Some b | None => documentElement _ end)
      as [element |] eqn:Hcontent; [| now exists []].
    apply bodyContent_is_element in Hcontent.
    now apply conversion_returns. }
  destruct Hconverted as [converted ->]. cbn [bind].
  match goal with
  | |- context [if truthy ?d then _ else _] => destruct (truthy d)
  end;
    (edestruct cleanupMdx_keeps_opener as [kept ->];
     [reflexivity | now exists kept]).
Qed.

Lemma front_matter_opens_output_witness :
  default_false
    (includeMetadata
       {| preserveImages := None; preserveLinks := None;
          includeMetadata := Some true |}) = true
  /\ exists rest,
       htmlToMdx (page [Element (lit "p") [] [Text (lit "Hello")]])
         {| preserveImages := None; preserveLinks := None;
            includeMetadata := Some true |} (lit "2024-01-01T00:00:00.000Z")
       = Ok (front_matter_opener ++ rest).
Proof.
  split; [reflexivity |].
  apply front_matter_opens_output. reflexivity.
Defined.

(** ** Flattened text, again *)

(** X20: the flattened text of any node has single spaces as its only
    whitespace, none at its start or end, and otherwise the characters of
    the node's text in their order. *)
Theorem getTextContent_is_flattened (element : node) :
  single_spaces_only (getTextContent element)
  /\ visible (getTextContent element) = visible (textContent element).
Proof. apply getTextContent_flattened. Qed.

Lemma getTextContent_single_spaced (element : node) :
  single_spaced true (getTextContent element) = true.
Proof.
  unfold getTextContent, trim.
  destruct (dropWhileEnd_prefix is_space
              (dropWhile is_space
                 (collapse_whitespace (textContent element)))) as [back H].
  apply (single_spaced_prefix _ back). rewrite <- H.
  apply single_spaced_dropWhile, collapse_scan.
Qed.

Lemma collapse_whitespace_fixed (t : jsstring) :
  forall b, single_spaced b t = true -> collapse_whitespace t = t.
Proof.
  unfold collapse_whitespace, replace_runs.
  induction t as [| c rest IH]; intros b Ht; [reflexivity |].
  cbn [single_spaced] in Ht. cbn [scan].
  destruct (is_space c) eqn:Hc.
  - apply andb_true_iff in Ht as [Hsp Hrest].
    apply andb_true_iff in Hsp as [Hsp _]. apply N.eqb_eq in Hsp. subst c.
    specialize (IH true Hrest).
    destruct rest as [| d rest]; [reflexivity |].
    cbn [single_spaced] in Hrest. cbn [scan] in *.
    destruct (is_space d); [now rewrite andb_false_r in Hrest |].
    cbn [flush app rev] in *. now rewrite IH.
  - cbn [flush app]. now rewrite (IH false Ht).
Qed.

(** X21: flattening is idempotent: an element whose only child is a text
    node that holds flattened text has that text as its flattened text. *)
Theorem getTextContent_idempotent tagName attributes (element : node) :
  getTextContent (Element tagName attributes [Text (getTextContent element)])
  = getTextContent element.
Proof.
  pose proof (getTextContent_single_spaced element) as Hspaced.
  destruct (getTextContent_flattened element) as [(_ & _ & Hhead & Hlast) _].
  unfold getTextContent at 1. cbn [textContent descendant_text flat_map].
  rewrite app_nil_r, (collapse_whitespace_fixed _ true Hspaced).
  now apply trim_unchanged.
Qed.

Lemma flattened_text_of_children tagName attributes childNodes :
  getTextContent
    (Element tagName attributes
       [Text (descendant_text (Element tagName attributes childNodes))])
  = getTextContent (Element tagName attributes childNodes).
Proof.
  unfold getTextContent. cbn [textContent descendant_text flat_map].
  now rewrite app_nil_r.
Qed.

(** X22: in a heading, a link, an emphasis, a [code] or a [pre] element
    only the text counts: the element formats as if its children were one
    text node with the same text, so elements inside it (an image inside
    a link, say) are never formatted. *)
Theorem flattening_tags_ignore_markup tagName attributes childNodes depth options :
  case tagName ["h1"; "h2"; "h3"; "h4"; "h5"; "h6"; "a"; "strong"; "b";
                "em"; "i"; "code"; "pre"] = true ->
  convertElement (Element tagName attributes childNodes) depth options
  = convertElement
      (Element tagName attributes
         [Text (descendant_text (Element tagName attributes childNodes))])
      depth options.
Proof.
  intros H.
  rewrite !convertElement_unfold. unfold convertElement_body.
  rewrite flattened_text_of_children.
  apply case_In in H as (l & Hin & ->).
  repeat (destruct Hin as [<- | Hin]; [reflexivity |]).
  destruct Hin.
Qed.

Lemma flattening_tags_ignore_markup_witness :
  let options :=
    {| preserveImages := Some true; preserveLinks := Some true;
       includeMetadata := None |} in
  let image := Element (lit "img") [(lit "src", lit "u.png")] [] in
  case (lit "a") ["h1"; "h2"; "h3"; "h4"; "h5"; "h6"; "a"; "strong"; "b";
                  "em"; "i"; "code"; "pre"] = true
  /\ convertElement (Element (lit "a") [(lit "href", lit "https://x.io")] [image])
       0 options
     = convertElement
         (Element (lit "a") [(lit "href", lit "https://x.io")]
            [Text (descendant_text
                     (Element (lit "a") [(lit "href", lit "https://x.io")]
                        [image]))])
         0 options.
Proof.
  split; [reflexivity |].
  apply flattening_tags_ignore_markup. reflexivity.
Defined.

(** ** Lists without items *)

(** X23: a list element without [li] children, an empty list or one that
    holds only other nodes, gives two newlines and nothing else. *)
Theorem convertList_without_items listElement depth options isOrdered :
  list_items listElement = [] ->
  convertList listElement depth options isOrdered = Ok [LF; LF].
Proof.
  intros Hitems.
  destruct listElement as [data | tagName attributes childNodes | data];
    try reflexivity.
  unfold convertList, convertList_body.
  rewrite convertList_loop_lines.
  cbn [list_items] in Hitems. now rewrite Hitems.
Qed.

Lemma convertList_without_items_witness :
  list_items (Element (lit "ul") [] [Text (lit "stray"); Element (lit "p") [] []])
  = []
  /\ convertList
       (Element (lit "ul") [] [Text (lit "stray"); Element (lit "p") [] []])
       0 no_options false
     = Ok [LF; LF].
Proof.
  split; [reflexivity |].
  apply convertList_without_items. reflexivity.
Defined.

(** ** Tables, in full *)

Lemma escape_pipes_head (s : jsstring) c rest :
  escape_pipes s = c :: rest -> (c =? PIPE) = false.
Proof.
  destruct s as [| d s]; [discriminate |].
  cbn [escape_pipes flat_map].
  destruct (d =? PIPE) eqn:Hd; intros H; injection H as <- _;
    [reflexivity | exact Hd].
Qed.

Lemma unescape_escape_pipes (s : jsstring) :
  unescape_pipes (escape_pipes s) = s.
Proof.
  induction s as [| c s IH]; [reflexivity |].
  cbn [escape_pipes flat_map]. fold (escape_pipes s).
  destruct (c =? PIPE) eqn:Hc.
  - apply N.eqb_eq in Hc. subst c. cbn [app unescape_pipes].
    change (BACKSLASH =? BACKSLASH) with true.
    change (PIPE =? PIPE) with true. cbv iota. now rewrite IH.
  - cbn [app unescape_pipes].
    destruct (c =? BACKSLASH); [| now rewrite IH].
    destruct (escape_pipes s) as [| d rest] eqn:Hs.
    + destruct s; [reflexivity | ].
      cbn [escape_pipes flat_map] in Hs.
      now destruct (c0 =? PIPE).
    + rewrite (escape_pipes_head s d rest Hs). now rewrite IH.
Qed.

Lemma row_line_ends_its_line (row : node) :
  exists line, row_line row = line ++ [LF] /\ ~ In LF line.
Proof.
  exists (lit "| " ++ join (lit " | ") (map cell_text (row_cells row)) ++ lit " |").
  split; [unfold row_line; now rewrite <- !app_assoc |].
  intros Hin. apply in_app_or in Hin as [Hin | Hin].
  { cbn in Hin. destruct Hin as [H | [H | []]]; discriminate. }
  apply in_app_or in Hin as [Hin | Hin].
  - revert Hin. apply join_no_newline.
    + cbn. intros [H | [H | [H | []]]]; discriminate.
    + apply Forall_map, Forall_forall. intros cell _. apply cell_text_facts.
  - cbn in Hin. destruct Hin as [H | [H | []]]; discriminate.
Qed.

(** C7: a table without [tr] rows gives the empty string; otherwise the
    output is, between a leading newline and a closing newline, one
    pipe-delimited line per row, with a separator line of as many [---]
    cells as the first row has cells right after the first row exactly
    when the first row has a [th] cell.  The line of a row is a single
    line.  The text of a cell in it is the flattened text of the cell
    (single spaces as its only whitespace, the other characters of the
    cell's text kept in order) with a backslash put before every [|] and
    nothing else changed, and it neither starts nor ends with
    whitespace. *)
Theorem convertTable_lines (tableElement : node) (options : ConversionOptions) :
  match querySelectorAll ["tr"] tableElement with
  | [] => convertTable tableElement options = []
  | first :: others =>
      convertTable tableElement options
      = [LF]
          ++ row_line first
          ++ (if existsb (has_tag ["th"]) (row_cells first)
              then separator_line (length (row_cells first))
              else [])
          ++ concat (map row_line others)
          ++ [LF]
  end
  /\ (forall row, exists line, row_line row = line ++ [LF] /\ ~ In LF line)
  /\ (forall cell,
        single_spaces_only (getTextContent cell)
        /\ visible (getTextContent cell) = visible (textContent cell)
        /\ cell_text cell = escape_pipes (getTextContent cell)
        /\ unescape_pipes (cell_text cell) = getTextContent cell
        /\ pipes_escaped_from false (cell_text cell) = true
        /\ ~ In LF (cell_text cell)
        /\ (forall c rest, cell_text cell = c :: rest -> is_space c = false)
        /\ (forall front c, cell_text cell = front ++ [c] -> is_space c = false)).
Proof.
  split; [apply convertTable_shape | split].
  - apply row_line_ends_its_line.
  - intros cell.
    destruct (getTextContent_flattened cell) as [Hspaces Hvisible].
    destruct (cell_text_facts cell) as (Hescaped & Hline & Hpipes).
    repeat split; try assumption.
    + apply Hspaces.
    + apply Hspaces.
    + apply Hspaces.
    + apply Hspaces.
    + rewrite Hescaped. apply unescape_escape_pipes.
    + intros c rest. apply trim_head.
    + intros front c. apply trim_last.
Qed.
